(** * erl_comm: length-prefixed framing between a port program and its host

    A shallow embedding of [c_src/erl_comm.c]: the resumable frame reader
    [read_cmd], the writer [write_exact] / [write_cmd] and the reply helper
    [send_answer_string_ulong].

    Conventions of the embedding.
    - C [int] values are [Z]; the arithmetic the code performs on them is
      wrapped to 32 bits by [int_wrap], and an [int] passed where a [size_t]
      is expected goes through [size_t_of_int].
    - Memory and the two streams carry raw bytes, [Z] in [0, 256).  Loading a
      byte through a [char] lvalue gives [char_of_byte], which depends on the
      signedness of [char] on the platform.
    - The heap is a list of blocks indexed by their address; a freed block is
      [None].  An access outside a live block is a [Crash].
    - [read], [write] and [realloc] are the environment: the input is a list
      of deliveries, the output a script of replies of the sink, and the
      allocator's answer is an argument of the call. *)

From Stdlib Require Import ZArith List Lia Bool String.
From stdpp Require Import base list.
Import ListNotations.
Local Open Scope Z_scope.

(** ** Machine integers and characters *)

(** Two's complement reduction to a 32-bit [int]. *)
Definition int_wrap (z : Z) : Z := (z + 2 ^ 31) mod 2 ^ 32 - 2 ^ 31.

(** Conversion of an [int] to [size_t] (LP64: 64 bits). *)
Definition size_t_of_int (z : Z) : Z := z mod 2 ^ 64.

(** The values an [int] can hold. *)
Definition int_range (z : Z) : Prop := - 2 ^ 31 <= z < 2 ^ 31.

(** A raw byte of memory. *)
Definition is_byte (b : Z) : Prop := 0 <= b < 256.

(** [buf[i]] read through a [char]: sign-extended when [char] is signed. *)
Definition char_of_byte (signed_char : bool) (b : Z) : Z :=
  if signed_char && (128 <=? b) then b - 256 else b.

(** The byte stored by an assignment of an [int] to a [char]. *)
Definition byte_of_int (z : Z) : Z := z mod 256.

(** [((c0 << 8) & 0x0000ff00) | (c1 & 0x00ff)] on the promoted chars. *)
Definition decode_len (c0 c1 : Z) : Z :=
  Z.lor (Z.land (int_wrap (Z.shiftl c0 8)) 0x0000ff00) (Z.land c1 0x00ff).

(** The frame length [read_cmd] computes from the two header bytes. *)
Definition frame_len (signed_char : bool) (b0 b1 : Z) : Z :=
  decode_len (char_of_byte signed_char b0) (char_of_byte signed_char b1).

(** ** Outcomes *)

Inductive fault : Type :=
  | BadPointer    (* access through a pointer to no live block *)
  | OutOfBounds.  (* access past the end of a live block *)

(** [Unfinished] is a loop model that ran out of fuel; [write_exact_total]
    shows that the fuel [write_exact] starts with always suffices. *)
Inductive outcome (A : Type) : Type :=
  | Done (a : A)
  | Crash (f : fault)
  | Unfinished.
Arguments Done {A} a.
Arguments Crash {A} f.
Arguments Unfinished {A}.

(** ** The heap *)

Abbreviation block := nat (only parsing).

(** Blocks by address; [None] is a block that has been freed. *)
Abbreviation heap := (list (option (list Z))) (only parsing).

Definition load_block (h : heap) (p : block) : option (list Z) :=
  match h !! p with
  | Some (Some bs) => Some bs
  | _ => None
  end.

(** Overwrite [data] at offset [off] of a block's bytes. *)
Definition splice (bs : list Z) (off : nat) (data : list Z) : list Z :=
  take off bs ++ data ++ drop (off + length data) bs.

(** Store [data] at [p + off].  Storing nothing touches no memory. *)
Definition store_bytes (h : heap) (p : block) (off : Z) (data : list Z)
  : outcome heap :=
  match data with
  | [] => Done h
  | _ :: _ =>
      match load_block h p with
      | None => Crash BadPointer
      | Some bs =>
          if (0 <=? off) && (off + Z.of_nat (length data) <=? Z.of_nat (length bs))
          then Done (<[p := Some (splice bs (Z.to_nat off) data)]> h)
          else Crash OutOfBounds
      end
  end.

(** [memset(p, 0, n)]. *)
Definition memset_zero (h : heap) (p : block) (n : Z) : outcome heap :=
  store_bytes h p 0 (replicate (Z.to_nat n) 0).

(** What the allocator answers to one [realloc] call.  The bytes of a block
    beyond its old length are indeterminate: [junk i] is what offset [i]
    happens to hold. *)
Inductive realloc_reply : Type :=
  | ReallocNull
  | ReallocInPlace (junk : nat -> Z)
  | ReallocMoved (junk : nat -> Z).

(** The contents of a block resized to [n] bytes. *)
Definition resized (old : list Z) (n : nat) (junk : nat -> Z) : list Z :=
  take n old ++ map junk (seq (length old) (n - length old)).

(** [realloc(p, n)]: [None] for a null result.  For a request of at least
    one byte a null result is a failure, which leaves the heap as it was; for
    a request of [0] bytes it is the allocator having freed the block (glibc,
    POSIX).  A moved block frees the old address and takes a fresh one. *)
Definition realloc (h : heap) (p : block) (n : Z) (a : realloc_reply)
  : outcome (option block * heap) :=
  match load_block h p with
  | None => Crash BadPointer
  | Some old =>
      match a with
      | ReallocNull => Done (None, if n =? 0 then <[p := None]> h else h)
      | ReallocInPlace junk =>
          Done (Some p, <[p := Some (resized old (Z.to_nat n) junk)]> h)
      | ReallocMoved junk =>
          Done (Some (length h),
                <[p := None]> h ++ [Some (resized old (Z.to_nat n) junk)])
      end
  end.

(** ** The inbound stream *)

(** What the host sends, in order: a delivery of bytes, or a condition that
    makes one [read] fail.  The end of the list is the closed stream. *)
Inductive input_event : Type :=
  | Deliver (bytes : list Z)
  | ReadError.

Definition instream := list input_event.

(** What is left of a delivery stays at the head of the stream. *)
Definition pending (left : list Z) (rest : instream) : instream :=
  match left with
  | [] => rest
  | _ :: _ => Deliver left :: rest
  end.

(** [read(0, _, n)] on a blocking descriptor: the count returned, the bytes
    transferred and the rest of the stream.  A request of [0] bytes returns
    [0] at once; otherwise the call waits for the next delivery and takes at
    most [n] bytes of it; at the end of the stream it returns [0]. *)
Fixpoint sys_read (inp : instream) (n : Z) : Z * list Z * instream :=
  match inp with
  | [] => (0, [], [])
  | ev :: rest =>
      if n =? 0 then (0, [], inp)
      else
        match ev with
        | ReadError => (-1, [], rest)
        | Deliver [] => sys_read rest n
        | Deliver bytes =>
            let k := Z.to_nat (Z.min n (Z.of_nat (length bytes))) in
            (Z.of_nat k, take k bytes, pending (drop k bytes) rest)
        end
  end.

(** [read(0, p + off, n)] with [n] an [int]: the transferred bytes land in
    the block. *)
Definition read_into (h : heap) (p : block) (off n : Z) (inp : instream)
  : outcome (Z * heap * instream) :=
  let '(count, data, inp') := sys_read inp (size_t_of_int n) in
  match store_bytes h p off data with
  | Done h' => Done (count, h', inp')
  | Crash f => Crash f
  | Unfinished => Unfinished
  end.

(** ** The frame reader *)

(** The caller's three variables that [read_cmd] receives by address. *)
Record reader : Type := mkReader {
  pbuf : block;   (* char *buf  *)
  size : Z;       (* int size   *)
  curpos : Z      (* int curpos *)
}.

Definition set_curpos (r : reader) (c : Z) : reader :=
  {| pbuf := pbuf r; size := size r; curpos := c |}.

(** A completed call: the value returned and the state it leaves. *)
Record returned : Type := mkReturned {
  ret : Z;
  rd : reader;
  mem : heap;
  rest_in : instream
}.

(** [buf[0]] and [buf[1]]. *)
Definition header_bytes (h : heap) (p : block) : outcome (Z * Z) :=
  match load_block h p with
  | None => Crash BadPointer
  | Some bs =>
      match bs !! 0%nat, bs !! 1%nat with
      | Some b0, Some b1 => Done (b0, b1)
      | _, _ => Crash OutOfBounds
      end
  end.

(** [len - *curpos + 2], the bytes of the frame still to come. *)
Definition remaining (len cur : Z) : Z := int_wrap (int_wrap (len - cur) + 2).

(** Lines 56-62: the body read, into [buf + *curpos]. *)
Definition read_body (r : reader) (h : heap) (inp : instream) (desired : Z)
  : outcome returned :=
  match read_into h (pbuf r) (curpos r) desired inp with
  | Crash f => Crash f
  | Unfinished => Unfinished
  | Done (count, h', inp') =>
      if count <=? 0 then Done (mkReturned 0 r h' inp')
      else Done (mkReturned 2 (set_curpos r (int_wrap (curpos r + count))) h' inp')
  end.

(** Lines 38-62: everything after the header read.  [memset] is applied to
    [*pbuf], which still holds the address passed to [realloc]. *)
Definition body_phase (signed_char : bool) (a : realloc_reply)
    (r : reader) (h : heap) (inp : instream) : outcome returned :=
  match header_bytes h (pbuf r) with
  | Crash f => Crash f
  | Unfinished => Unfinished
  | Done (b0, b1) =>
      let len := frame_len signed_char b0 b1 in
      let desired := remaining len (curpos r) in
      if size r <? len then
        match realloc h (pbuf r) (size_t_of_int len) a with
        | Crash f => Crash f
        | Unfinished => Unfinished
        | Done (None, h1) => Done (mkReturned (-1) r h1 inp)
        | Done (Some newbuf, h1) =>
            match memset_zero h1 (pbuf r)
                    (size_t_of_int (int_wrap (len - size r))) with
            | Crash f => Crash f
            | Unfinished => Unfinished
            | Done h2 =>
                read_body {| pbuf := newbuf; size := len; curpos := curpos r |}
                          h2 inp desired
            end
        end
      else read_body r h inp desired
  end.

(** [int read_cmd(char **pbuf, int *size, int *curpos)]. *)
Definition read_cmd (signed_char : bool) (a : realloc_reply)
    (r : reader) (h : heap) (inp : instream) : outcome returned :=
  if curpos r <? 2 then
    match read_into h (pbuf r) (curpos r) (int_wrap (2 - curpos r)) inp with
    | Crash f => Crash f
    | Unfinished => Unfinished
    | Done (count, h1, inp1) =>
        if count <=? 0 then Done (mkReturned count r h1 inp1)
        else
          let r1 := set_curpos r (int_wrap (curpos r + count)) in
          if curpos r1 <? 2 then Done (mkReturned 1 r1 h1 inp1)
          else body_phase signed_char a r1 h1 inp1
    end
  else body_phase signed_char a r h inp.

(** A run of the caller's loop: any number of [read_cmd] calls, each with
    whatever the allocator and the stream do, and between them the caller
    moving the cursor (to [0] once it has consumed a frame). *)
Inductive read_loop (signed_char : bool) : reader -> heap -> reader -> heap -> Prop :=
  | loop_stop r h : read_loop signed_char r h r h
  | loop_call a r h inp res r' h' :
      read_cmd signed_char a r h inp = Done res ->
      read_loop signed_char (rd res) (mem res) r' h' ->
      read_loop signed_char r h r' h'
  | loop_cursor c r h r' h' :
      read_loop signed_char (set_curpos r c) h r' h' ->
      read_loop signed_char r h r' h'.

(** ** The outbound stream *)

(** What the sink answers to one [write] of at least one byte: it takes up to
    [k] bytes, takes none, or fails. *)
Inductive write_reply : Type :=
  | Accept (k : positive)
  | AcceptNone
  | WriteError.

(** The bytes the host has received and the answers still to come; once the
    script is used up the sink takes whatever it is given. *)
Record sink : Type := mkSink {
  sent : list Z;
  replies : list write_reply
}.

(** Transfer of the first [k] bytes at the source address. *)
Definition transfer (sent_so_far : list Z) (rs : list write_reply)
    (avail : list Z) (k : Z) : outcome (Z * sink) :=
  if k <=? Z.of_nat (length avail)
  then Done (k, mkSink (sent_so_far ++ take (Z.to_nat k) avail) rs)
  else Crash OutOfBounds.

(** [write(1, src, n)], with [avail] the bytes of the object from [src] on.
    A request of [0] bytes returns [0]. *)
Definition sys_write (s : sink) (avail : list Z) (n : Z) : outcome (Z * sink) :=
  if n =? 0 then Done (0, s)
  else
    match replies s with
    | [] => transfer (sent s) [] avail n
    | Accept k :: rs => transfer (sent s) rs avail (Z.min (Z.pos k) n)
    | AcceptNone :: rs => Done (0, mkSink (sent s) rs)
    | WriteError :: rs => Done (-1, mkSink (sent s) rs)
    end.

(** A reply by which the sink takes at least one byte. *)
Definition is_accept (r : write_reply) : bool :=
  match r with Accept _ => true | _ => false end.

(** ** The frame writer *)

(** The [do ... while (wrote < len)] loop of [write_exact], entered with the
    current value of [wrote]. *)
Fixpoint write_exact_loop (fuel : nat) (buf : list Z) (len wrote : Z) (s : sink)
  : outcome (Z * sink) :=
  match fuel with
  | O => Unfinished
  | S fuel' =>
      match sys_write s (drop (Z.to_nat wrote) buf)
              (size_t_of_int (int_wrap (len - wrote))) with
      | Crash f => Crash f
      | Unfinished => Unfinished
      | Done (i, s') =>
          if i <=? 0 then Done (i, s')
          else
            let wrote' := int_wrap (wrote + i) in
            if wrote' <? len then write_exact_loop fuel' buf len wrote' s'
            else Done (len, s')
      end
  end.

(** [int write_exact(char *buf, int len)]; [buf] is the object pointed to. *)
Definition write_exact (buf : list Z) (len : Z) (s : sink) : outcome (Z * sink) :=
  write_exact_loop (S (Z.to_nat len)) buf len 0 s.

(** The fields of [ei_x_buff] the writer uses. *)
Record ei_x_buff : Type := mkBuff {
  buff : list Z;   (* char *buff, with its allocated bytes *)
  index : Z        (* int index *)
}.

(** [int write_cmd(ei_x_buff *buff)].  The values of the two header
    [write_exact] calls are dropped. *)
Definition write_cmd (b : ei_x_buff) (s : sink) : outcome (Z * sink) :=
  let li := byte_of_int (Z.land (Z.shiftr (index b) 8) 0xff) in
  match write_exact [li] 1 s with
  | Crash f => Crash f
  | Unfinished => Unfinished
  | Done (_, s1) =>
      let li := byte_of_int (Z.land (index b) 0xff) in
      match write_exact [li] 1 s1 with
      | Crash f => Crash f
      | Unfinished => Unfinished
      | Done (_, s2) => write_exact (buff b) (index b) s2
      end
  end.

(** ** The reply encoder *)

(** The calls [send_answer_string_ulong] makes, in order. *)
Inductive call : Type :=
  | CallNewWithVersion
  | CallEncodeTupleHeader (arity : Z)
  | CallEncodeAtom (name : string)
  | CallEncodeUlong (value : Z)
  | CallWriteCmd (b : ei_x_buff)
  | CallFree (b : ei_x_buff).

(** What a call of [send_answer_string_ulong] leaves behind. *)
Record answered : Type := mkAnswered {
  retval : Z;
  out : sink;
  calls : list call
}.

Section ReplyEncoder.

(** The encoders of the [ei] library, which is not part of this program:
    each returns its status and the buffer it leaves. *)
Variable ei_x_new_with_version : ei_x_buff -> Z * ei_x_buff.
Variable ei_x_encode_tuple_header : ei_x_buff -> Z -> Z * ei_x_buff.
Variable ei_x_encode_atom : ei_x_buff -> string -> Z * ei_x_buff.
Variable ei_x_encode_ulong : ei_x_buff -> Z -> Z * ei_x_buff.

(** The macro of [erl_comm.h]. *)
Variable TUPLE_HEADER_SIZE : Z.

(** Lines 105-108 for a condition that came out true or false:
    [ei_x_free] and the return. *)
Definition finish (failed : bool) (b : ei_x_buff) (s : sink) (log : list call)
  : outcome answered :=
  Done (mkAnswered (if failed then -1 else 0) s (log ++ [CallFree b])).

(** [int send_answer_string_ulong(const char *string, const uint32_t value)];
    [result0] is the uninitialised local [result]. *)
Definition send_answer_string_ulong (str : string) (value : Z)
    (result0 : ei_x_buff) (s : sink) : outcome answered :=
  let '(e1, b1) := ei_x_new_with_version result0 in
  let log1 := [CallNewWithVersion] in
  if negb (e1 =? 0) then finish true b1 s log1
  else
    let '(e2, b2) := ei_x_encode_tuple_header b1 TUPLE_HEADER_SIZE in
    let log2 := log1 ++ [CallEncodeTupleHeader TUPLE_HEADER_SIZE] in
    if negb (e2 =? 0) then finish true b2 s log2
    else
      let '(e3, b3) := ei_x_encode_atom b2 str in
      let log3 := log2 ++ [CallEncodeAtom str] in
      if negb (e3 =? 0) then finish true b3 s log3
      else
        let '(e4, b4) := ei_x_encode_ulong b3 value in
        let log4 := log3 ++ [CallEncodeUlong value] in
        if negb (e4 =? 0) then finish true b4 s log4
        else
          match write_cmd b4 s with
          | Crash f => Crash f
          | Unfinished => Unfinished
          | Done (w, s') => finish (w =? 0) b4 s' (log4 ++ [CallWriteCmd b4])
          end.

(** The four encoding steps as the [||] chain of lines 99-102 runs them:
    whether all of them returned [0], and the buffer after the last one
    that ran. *)
Definition encode_steps (str : string) (value : Z) (result0 : ei_x_buff)
  : bool * ei_x_buff :=
  let '(e1, b1) := ei_x_new_with_version result0 in
  if negb (e1 =? 0) then (false, b1)
  else
    let '(e2, b2) := ei_x_encode_tuple_header b1 TUPLE_HEADER_SIZE in
    if negb (e2 =? 0) then (false, b2)
    else
      let '(e3, b3) := ei_x_encode_atom b2 str in
      if negb (e3 =? 0) then (false, b3)
      else
        let '(e4, b4) := ei_x_encode_ulong b3 value in
        (e4 =? 0, b4).

End ReplyEncoder.

Definition is_write_call (c : call) : bool :=
  match c with CallWriteCmd _ => true | _ => false end.

Definition is_free_call (c : call) : bool :=
  match c with CallFree _ => true | _ => false end.

(** Stand-ins for the encoders, for small values, used in the examples
    below: each appends its tag and operand to the buffer. *)
Definition append_bytes (b : ei_x_buff) (bytes : list Z) : ei_x_buff :=
  mkBuff (buff b ++ bytes) (index b + Z.of_nat (length bytes)).

Definition sample_new_with_version (_ : ei_x_buff) : Z * ei_x_buff :=
  (0, mkBuff [131] 1).

Definition sample_encode_tuple_header (b : ei_x_buff) (arity : Z) : Z * ei_x_buff :=
  (0, append_bytes b [104; arity]).

Definition sample_encode_atom (b : ei_x_buff) (name : string) : Z * ei_x_buff :=
  (0, append_bytes b
        (119 :: Z.of_nat (String.length name)
             :: map (fun c => Z.of_nat (Ascii.nat_of_ascii c)) (list_ascii_of_string name))).

Definition sample_encode_ulong (b : ei_x_buff) (value : Z) : Z * ei_x_buff :=
  (0, append_bytes b [97; value]).

(** An integer encoder that fails, as when it cannot grow the buffer. *)
Definition failing_encode_ulong (b : ei_x_buff) (_ : Z) : Z * ei_x_buff :=
  (-1, b).

(** ** Runs over one stream *)

(** Calls repeated on one stream for as long as the value is positive, the
    cursor left where each call put it; [a] is what the allocator would
    answer. *)
Inductive read_calls (signed_char : bool) (a : realloc_reply)
  : reader -> heap -> instream -> reader -> heap -> instream -> Prop :=
  | calls_none r h inp : read_calls signed_char a r h inp r h inp
  | calls_again r h inp res r' h' inp' :
      read_cmd signed_char a r h inp = Done res ->
      0 < ret res ->
      read_calls signed_char a (rd res) (mem res) (rest_in res) r' h' inp' ->
      read_calls signed_char a r h inp r' h' inp'.

(** The bytes a stream still holds, in order, when no [read] of it fails. *)
Fixpoint pending_bytes (inp : instream) : option (list Z) :=
  match inp with
  | [] => Some []
  | Deliver bytes :: rest =>
      match pending_bytes rest with
      | Some more => Some (bytes ++ more)
      | None => None
      end
  | ReadError :: _ => None
  end.

(** The bytes a run of [Accept] replies lets through when none is cut
    short. *)
Definition accepted (ks : list positive) : Z :=
  fold_right (fun k acc => Z.pos k + acc) 0 ks.

(** The block once the first [c] bytes of a frame have been read into it. *)
Definition assembled (frame bs : list Z) (c : nat) : list Z :=
  take c frame ++ drop c bs.

(** A cursor that is in the header, or within the frame the header of the
    block announces. *)
Definition in_frame (signed_char : bool) (bs : list Z) (cur : Z) : Prop :=
  0 <= cur /\
  (2 <= cur ->
   exists b0 b1, bs !! 0%nat = Some b0 /\ bs !! 1%nat = Some b1 /\
                 cur <= frame_len signed_char b0 b1 + 2).

(** Closes a side condition on concrete data by evaluating it. *)
Ltac evaluated :=
  try reflexivity;
  vm_compute; repeat split; try reflexivity; try discriminate;
  try (intro; discriminate).

(** Case analysis on every [match] of a hypothesis that a call returned. *)
Ltac case_on_matches :=
  repeat match goal with
    | H : Done _ = Done _ |- _ => injection H as <-
    | H : Crash _ = Done _ |- _ => discriminate H
    | H : Unfinished = Done _ |- _ => discriminate H
    | H : context [match ?x with _ => _ end] |- _ => destruct x eqn:?
    end.

(** ** Arithmetic facts *)

Lemma int_wrap_small (z : Z) : int_range z -> int_wrap z = z.
Proof.
  unfold int_range, int_wrap. intros Hz.
  rewrite Z.mod_small by lia. lia.
Qed.

Lemma size_t_small (z : Z) : 0 <= z < 2 ^ 64 -> size_t_of_int z = z.
Proof. unfold size_t_of_int. intros Hz. now apply Z.mod_small. Qed.

Lemma land_low_byte (c : Z) : Z.land c 0xff = c mod 256.
Proof. change 0xff with (Z.ones 8). now rewrite Z.land_ones by lia. Qed.

Lemma land_high_byte (c : Z) :
  Z.land (Z.shiftl c 8) 0xff00 = (c mod 256) * 256.
Proof.
  change 0xff00 with (Z.shiftl 0xff 8).
  rewrite <- Z.shiftl_land, land_low_byte, Z.shiftl_mul_pow2 by lia.
  reflexivity.
Qed.

Lemma lor_disjoint_bytes (hi lo : Z) :
  0 <= lo < 256 -> Z.lor (hi * 256) lo = hi * 256 + lo.
Proof.
  intros Hlo. symmetry. rewrite Z.add_comm, Z.lor_comm.
  replace (hi * 256) with (Z.shiftl hi 8) by (rewrite Z.shiftl_mul_pow2; lia).
  apply Z.bits_inj'. intros n Hn.
  rewrite Z.lor_spec.
  destruct (Z.ltb_spec n 8) as [Hlt | Hge].
  - rewrite Z.shiftl_spec_low, orb_false_r by lia.
    rewrite <- (Z.mod_small lo (2 ^ 8)) at 2 by lia.
    rewrite <- (Z.mod_pow2_bits_low (lo + Z.shiftl hi 8) 8 n) by lia.
    rewrite Z.shiftl_mul_pow2 by lia.
    rewrite Z.mod_add by lia. reflexivity.
  - rewrite (Z.bits_above_log2 lo n); [ | lia | ].
    + simpl. rewrite !Z.shiftl_spec by lia.
      rewrite Z.shiftl_mul_pow2 by lia.
      replace n with ((n - 8) + 8) at 1 by lia.
      rewrite <- Z.div_pow2_bits by lia.
      rewrite Z.div_add by lia.
      rewrite Z.div_small by lia. reflexivity.
    + destruct (Z.eq_dec lo 0) as [-> | Hnz]; [simpl; lia | ].
      apply Z.log2_lt_pow2; [lia | ].
      apply Z.lt_le_trans with (2 ^ 8); [lia | ].
      apply Z.pow_le_mono_r; lia.
Qed.

Lemma char_of_byte_mod (s : bool) (b : Z) : char_of_byte s b mod 256 = b mod 256.
Proof.
  unfold char_of_byte. destruct (s && (128 <=? b)); [ | reflexivity].
  replace (b - 256) with (b + (-1) * 256) by lia.
  now rewrite Z.mod_add by lia.
Qed.

Lemma char_of_byte_range (s : bool) (b : Z) :
  is_byte b -> -128 <= char_of_byte s b <= 255.
Proof.
  unfold is_byte, char_of_byte. intros Hb.
  destruct s; simpl; [ | lia].
  destruct (Z.leb_spec 128 b); lia.
Qed.

Lemma decode_len_mod (c0 c1 : Z) :
  -128 <= c0 <= 255 -> decode_len c0 c1 = (c0 mod 256) * 256 + c1 mod 256.
Proof.
  intros Hc. unfold decode_len.
  rewrite int_wrap_small.
  - rewrite land_high_byte, land_low_byte.
    apply lor_disjoint_bytes. apply Z.mod_pos_bound. lia.
  - unfold int_range. rewrite Z.shiftl_mul_pow2 by lia. lia.
Qed.

Lemma frame_len_of_bytes (s : bool) (b0 b1 : Z) :
  is_byte b0 -> is_byte b1 -> frame_len s b0 b1 = b0 * 256 + b1.
Proof.
  intros H0 H1. unfold frame_len.
  rewrite decode_len_mod by (now apply char_of_byte_range).
  rewrite !char_of_byte_mod.
  unfold is_byte in *. now rewrite !Z.mod_small by lia.
Qed.

(** C8.  For every pair of header bytes the length [read_cmd] computes is the
    big-endian unsigned 16-bit value [b0 * 256 + b1], hence lies in
    [0, 65535], whether [char] is signed (bytes of 128 and more load as
    negative values) or not. *)
Theorem frame_len_big_endian (signed_char : bool) (b0 b1 : Z) :
  is_byte b0 -> is_byte b1 ->
  frame_len signed_char b0 b1 = b0 * 256 + b1 /\
  0 <= frame_len signed_char b0 b1 <= 65535.
Proof.
  intros H0 H1. rewrite frame_len_of_bytes by assumption.
  unfold is_byte in *. lia.
Qed.

Lemma frame_len_big_endian_witness :
  is_byte 0xff /\ is_byte 0x80 /\
  frame_len true 0xff 0x80 = 0xff * 256 + 0x80 /\
  0 <= frame_len true 0xff 0x80 <= 65535.
Proof.
  assert (Ha : is_byte 0xff) by (unfold is_byte; lia).
  assert (Hb : is_byte 0x80) by (unfold is_byte; lia).
  split; [exact Ha | split; [exact Hb | ]].
  exact (frame_len_big_endian true 0xff 0x80 Ha Hb).
Defined.

Lemma land_second_byte (x : Z) :
  Z.land x 0xff00 = ((x / 256) mod 256) * 256.
Proof.
  rewrite <- land_high_byte.
  change 256 with (2 ^ 8). rewrite <- Z.shiftr_div_pow2 by lia.
  apply Z.bits_inj'. intros n Hn.
  rewrite !Z.land_spec.
  destruct (Z.ltb_spec n 8) as [Hlt | Hge].
  - rewrite Z.shiftl_spec_low by lia.
    replace (Z.testbit 65280 n) with false; [now rewrite andb_false_r | ].
    change 65280 with (Z.shiftl 255 8). now rewrite Z.shiftl_spec_low by lia.
  - rewrite Z.shiftl_spec, Z.shiftr_spec by lia.
    replace (n - 8 + 8) with n by lia.
    destruct (Z.testbit x n); [ | reflexivity]. simpl.
    change 65280 with (Z.shiftl 255 8). now rewrite Z.shiftl_spec by lia.
Qed.

Lemma decode_len_range (c0 c1 : Z) : 0 <= decode_len c0 c1 <= 65535.
Proof.
  unfold decode_len.
  rewrite land_second_byte, land_low_byte.
  rewrite lor_disjoint_bytes by (apply Z.mod_pos_bound; lia).
  pose proof (Z.mod_pos_bound (int_wrap (Z.shiftl c0 8) / 256) 256 ltac:(lia)).
  pose proof (Z.mod_pos_bound c1 256 ltac:(lia)).
  lia.
Qed.

Lemma frame_len_range (s : bool) (b0 b1 : Z) : 0 <= frame_len s b0 b1 <= 65535.
Proof. apply decode_len_range. Qed.

(** ** The heap and the streams *)

Lemma load_block_live (h : heap) (p : block) (bs : list Z) :
  load_block h p = Some bs -> h !! p = Some (Some bs) /\ (p < length h)%nat.
Proof.
  unfold load_block. intros H.
  destruct (h !! p) as [[bs' | ] | ] eqn:E; try discriminate.
  injection H as ->. split; [reflexivity | ].
  now apply lookup_lt_Some in E.
Qed.

Lemma load_block_insert (h : heap) (p : block) (old new : list Z) :
  load_block h p = Some old -> load_block (<[p := Some new]> h) p = Some new.
Proof.
  intros H. apply load_block_live in H as [_ Hlt].
  unfold load_block. now rewrite list_lookup_insert_eq.
Qed.

Lemma splice_nothing (bs : list Z) (off : nat) : splice bs off [] = bs.
Proof. unfold splice. simpl. rewrite Nat.add_0_r. apply take_drop. Qed.

Lemma store_bytes_fits (h : heap) (p : block) (off : Z) (data bs : list Z) :
  load_block h p = Some bs ->
  0 <= off ->
  off + Z.of_nat (length data) <= Z.of_nat (length bs) ->
  store_bytes h p off data = Done (<[p := Some (splice bs (Z.to_nat off) data)]> h).
Proof.
  intros Hload Hoff Hfit. unfold store_bytes.
  destruct data as [ | d data].
  - rewrite splice_nothing. f_equal. symmetry.
    apply list_insert_id. now apply load_block_live in Hload.
  - rewrite Hload.
    replace (0 <=? off) with true by (symmetry; now apply Z.leb_le).
    replace (_ <=? _) with true by (symmetry; now apply Z.leb_le).
    reflexivity.
Qed.

Lemma store_nothing (h : heap) (p : block) (off : Z) : store_bytes h p off [] = Done h.
Proof. reflexivity. Qed.

(** One [read] returns [-1], [0] or a count of at most the bytes asked for,
    and transfers exactly the bytes it counts. *)
Lemma sys_read_count (inp : instream) (n : Z) :
  0 <= n ->
  let '(count, data, _) := sys_read inp n in
  -1 <= count <= n /\ Z.of_nat (length data) = Z.max count 0.
Proof.
  intros Hn. induction inp as [ | ev rest IH]; simpl.
  - split; [lia | reflexivity].
  - destruct (Z.eqb_spec n 0) as [-> | Hnz]; [simpl; lia | ].
    destruct ev as [[ | b bytes] | ]; [exact IH | | simpl; lia].
    set (k := Z.to_nat (Z.min n (Z.of_nat (length (b :: bytes))))).
    assert (Hk : (k <= length (b :: bytes))%nat) by (unfold k; lia).
    rewrite length_take. unfold k in *. lia.
Qed.

Lemma sys_read_failed_no_data (inp : instream) (n count : Z) (data : list Z)
    (inp' : instream) :
  0 <= n -> sys_read inp n = (count, data, inp') -> count <= 0 -> data = [].
Proof.
  intros Hn E Hc. pose proof (sys_read_count inp n Hn) as H.
  rewrite E in H. destruct H as [_ Hlen].
  destruct data; [reflexivity | simpl in Hlen; lia].
Qed.

Lemma remaining_small (len cur : Z) :
  0 <= len <= 65535 -> int_range cur -> 2 <= cur -> remaining len cur = len - cur + 2.
Proof.
  unfold remaining, int_range. intros Hl Hc H2.
  rewrite (int_wrap_small (len - cur)) by (unfold int_range; lia).
  apply int_wrap_small. unfold int_range. lia.
Qed.

(** ** The body phase *)

Lemma header_bytes_of_block (h : heap) (p : block) (bs : list Z) (b0 b1 : Z) :
  load_block h p = Some bs -> bs !! 0%nat = Some b0 -> bs !! 1%nat = Some b1 ->
  header_bytes h p = Done (b0, b1).
Proof. intros Hl H0 H1. unfold header_bytes. now rewrite Hl, H0, H1. Qed.

Lemma read_cmd_in_body (s : bool) (a : realloc_reply) (r : reader) (h : heap)
    (inp : instream) :
  2 <= curpos r -> read_cmd s a r h inp = body_phase s a r h inp.
Proof.
  intros H. unfold read_cmd.
  destruct (Z.ltb_spec (curpos r) 2); [lia | reflexivity].
Qed.

(** What the body read does once the frame length is known to fit the
    capacity: a positive count gives [2], whatever part of the body it is. *)
Lemma read_body_positive (r : reader) (h : heap) (inp inp' : instream)
    (bs data : list Z) (n count : Z) :
  load_block h (pbuf r) = Some bs ->
  0 <= curpos r -> 0 <= n < 2 ^ 64 ->
  sys_read inp n = (count, data, inp') ->
  0 < count ->
  curpos r + count <= Z.of_nat (length bs) ->
  int_range (curpos r + count) ->
  read_body r h inp n =
    Done (mkReturned 2 (set_curpos r (curpos r + count))
            (<[pbuf r := Some (splice bs (Z.to_nat (curpos r)) data)]> h) inp').
Proof.
  intros Hload Hcur Hn Hread Hpos Hfit Hint.
  unfold read_body, read_into.
  rewrite size_t_small by lia. rewrite Hread.
  pose proof (sys_read_count inp n ltac:(lia)) as Hc. rewrite Hread in Hc.
  rewrite (store_bytes_fits h (pbuf r) (curpos r) data bs) by (trivial; lia).
  destruct (Z.leb_spec count 0); [lia | ].
  now rewrite int_wrap_small.
Qed.

Lemma read_body_value (r : reader) (h : heap) (inp : instream) (n : Z)
    (res : returned) :
  read_body r h inp n = Done res -> ret res = 0 \/ ret res = 2.
Proof.
  unfold read_body. intros H. case_on_matches; simpl; auto.
Qed.

(** The body phase returns [-1], [0] or [2]. *)
Lemma body_phase_value (s : bool) (a : realloc_reply) (r : reader) (h : heap)
    (inp : instream) (res : returned) :
  body_phase s a r h inp = Done res -> ret res = -1 \/ ret res = 0 \/ ret res = 2.
Proof.
  unfold body_phase. intros H.
  destruct (header_bytes h (pbuf r)) as [[b0 b1] | | ]; try discriminate.
  destruct (size r <? frame_len s b0 b1).
  - destruct (realloc h (pbuf r) _ a) as [[[newbuf | ] h1] | | ]; try discriminate.
    + destruct (memset_zero h1 (pbuf r) _) as [h2 | | ]; try discriminate.
      apply read_body_value in H. lia.
    + injection H as <-. simpl. lia.
  - apply read_body_value in H. lia.
Qed.

(** C1 (amended).  In the body phase, with a frame length that fits the
    capacity, a read that returns a positive count makes [read_cmd] return
    [2] and advance the cursor by that count, whether or not the cursor has
    reached [L + 2]; the bytes read land at the old cursor and the rest of
    the buffer, the capacity and the pointer stay as they were.  No call
    entered in the body phase returns [1], whatever the allocator and the
    stream do. *)
Theorem read_cmd_body_read_returns_2 (signed_char : bool) (a : realloc_reply)
    (r : reader) (h : heap) (inp inp' : instream) (bs data : list Z)
    (b0 b1 count : Z) :
  load_block h (pbuf r) = Some bs ->
  bs !! 0%nat = Some b0 -> bs !! 1%nat = Some b1 ->
  2 <= curpos r <= frame_len signed_char b0 b1 + 2 ->
  frame_len signed_char b0 b1 <= size r ->
  sys_read inp (frame_len signed_char b0 b1 - curpos r + 2) = (count, data, inp') ->
  0 < count ->
  curpos r + count <= Z.of_nat (length bs) ->
  read_cmd signed_char a r h inp =
    Done (mkReturned 2 (set_curpos r (curpos r + count))
            (<[pbuf r := Some (splice bs (Z.to_nat (curpos r)) data)]> h) inp') /\
  (forall a' inp1 res,
     read_cmd signed_char a' r h inp1 = Done res -> ret res <> 1).
Proof.
  intros Hload H0 H1 Hcur Hsize Hread Hpos Hfit.
  pose proof (frame_len_range signed_char b0 b1) as HL.
  split.
  - rewrite read_cmd_in_body by lia. unfold body_phase.
    rewrite (header_bytes_of_block h (pbuf r) bs b0 b1) by assumption.
    destruct (Z.ltb_spec (size r) (frame_len signed_char b0 b1)); [lia | ].
    rewrite remaining_small by (unfold int_range; lia).
    pose proof (sys_read_count inp (frame_len signed_char b0 b1 - curpos r + 2)
                  ltac:(lia)) as Hc.
    rewrite Hread in Hc.
    apply read_body_positive with (count := count); trivial; try lia.
    unfold int_range. lia.
  - intros a' inp1 res Hres. rewrite read_cmd_in_body in Hres by lia.
    apply body_phase_value in Hres. lia.
Qed.

Lemma read_cmd_body_read_returns_2_witness :
  read_cmd true ReallocNull (mkReader 0 8 2)
    [Some [0; 5; 0; 0; 0; 0; 0; 0]] [Deliver [1; 2; 3]; Deliver [4; 5]] =
  Done (mkReturned 2 (set_curpos (mkReader 0 8 2) (2 + 3))
          (<[0%nat := Some (splice [0; 5; 0; 0; 0; 0; 0; 0] (Z.to_nat 2) [1; 2; 3])]>
             [Some [0; 5; 0; 0; 0; 0; 0; 0]])
          [Deliver [4; 5]]) /\
  (forall a' inp1 res,
     read_cmd true a' (mkReader 0 8 2) [Some [0; 5; 0; 0; 0; 0; 0; 0]] inp1 = Done res ->
     ret res <> 1).
Proof.
  apply (read_cmd_body_read_returns_2 true ReallocNull (mkReader 0 8 2)
           [Some [0; 5; 0; 0; 0; 0; 0; 0]] [Deliver [1; 2; 3]; Deliver [4; 5]]
           [Deliver [4; 5]] [0; 5; 0; 0; 0; 0; 0; 0] [1; 2; 3] 0 5 3);
    evaluated.
Defined.

(** C1, as stated, fails: of a 5-byte body 3 bytes arrive; the read returns
    3 and the call returns [2], although the cursor is then [5] and not
    [L + 2 = 7]. *)
Lemma partial_body_reported_as_2 :
  exists res,
    read_cmd true ReallocNull (mkReader 0 8 2)
      [Some [0; 5; 0; 0; 0; 0; 0; 0]] [Deliver [1; 2; 3]; Deliver [4; 5]] = Done res /\
    ret res = 2 /\
    curpos (rd res) = 5 /\
    frame_len true 0 5 + 2 = 7 /\
    mem res = [Some [0; 5; 1; 2; 3; 0; 0; 0]].
Proof. eexists. split; [reflexivity | now repeat split]. Qed.

(** ** The header phase *)

Lemma body_phase_no_growth (s : bool) (a : realloc_reply) (r : reader) (h : heap)
    (inp : instream) (b0 b1 : Z) :
  header_bytes h (pbuf r) = Done (b0, b1) ->
  frame_len s b0 b1 <= size r ->
  body_phase s a r h inp = read_body r h inp (remaining (frame_len s b0 b1) (curpos r)).
Proof.
  intros Hh Hsize. unfold body_phase. rewrite Hh.
  destruct (Z.ltb_spec (size r) (frame_len s b0 b1)); [lia | reflexivity].
Qed.

(** A header read that brings the cursor to [2] is followed, in the same
    call, by the body phase. *)
Lemma read_cmd_header_completed (s : bool) (a : realloc_reply) (r : reader)
    (h : heap) (inp inp' : instream) (bs data : list Z) (count : Z) :
  load_block h (pbuf r) = Some bs ->
  0 <= curpos r < 2 ->
  2 <= Z.of_nat (length bs) ->
  sys_read inp (2 - curpos r) = (count, data, inp') ->
  curpos r + count = 2 ->
  read_cmd s a r h inp =
    body_phase s a (set_curpos r 2)
      (<[pbuf r := Some (splice bs (Z.to_nat (curpos r)) data)]> h) inp'.
Proof.
  intros Hload Hcur Hlen Hread Hsum. unfold read_cmd.
  destruct (Z.ltb_spec (curpos r) 2); [ | lia].
  unfold read_into.
  rewrite int_wrap_small by (unfold int_range; lia).
  rewrite size_t_small by lia. rewrite Hread.
  pose proof (sys_read_count inp (2 - curpos r) ltac:(lia)) as Hc.
  rewrite Hread in Hc.
  rewrite (store_bytes_fits h (pbuf r) (curpos r) data bs) by (trivial; lia).
  destruct (Z.leb_spec count 0); [lia | ].
  rewrite Hsum. rewrite int_wrap_small by (unfold int_range; lia).
  reflexivity.
Qed.

(** A header read that fails: its count is the value of the call. *)
Lemma read_cmd_header_failed (s : bool) (a : realloc_reply) (r : reader)
    (h : heap) (inp inp' : instream) (data : list Z) (count : Z) :
  0 <= curpos r < 2 ->
  sys_read inp (2 - curpos r) = (count, data, inp') ->
  count <= 0 ->
  read_cmd s a r h inp = Done (mkReturned count r h inp').
Proof.
  intros Hcur Hread Hc. unfold read_cmd.
  destruct (Z.ltb_spec (curpos r) 2); [ | lia].
  unfold read_into.
  rewrite int_wrap_small by (unfold int_range; lia).
  rewrite size_t_small by lia. rewrite Hread.
  rewrite (sys_read_failed_no_data inp (2 - curpos r) count data inp') by (trivial; lia).
  rewrite store_nothing.
  destruct (Z.leb_spec count 0); [reflexivity | lia].
Qed.

(** A body read that fails: the call returns [0], whatever the count was. *)
Lemma read_cmd_body_failed (s : bool) (a : realloc_reply) (r : reader)
    (h : heap) (inp inp' : instream) (data : list Z) (b0 b1 count : Z) :
  header_bytes h (pbuf r) = Done (b0, b1) ->
  2 <= curpos r <= frame_len s b0 b1 + 2 ->
  frame_len s b0 b1 <= size r ->
  sys_read inp (frame_len s b0 b1 - curpos r + 2) = (count, data, inp') ->
  count <= 0 ->
  read_cmd s a r h inp = Done (mkReturned 0 r h inp').
Proof.
  intros Hh Hcur Hsize Hread Hc.
  pose proof (frame_len_range s b0 b1) as HL.
  rewrite read_cmd_in_body by lia.
  rewrite (body_phase_no_growth s a r h inp b0 b1) by assumption.
  rewrite remaining_small by (unfold int_range; lia).
  unfold read_body, read_into.
  rewrite size_t_small by lia. rewrite Hread.
  rewrite (sys_read_failed_no_data inp (frame_len s b0 b1 - curpos r + 2) count data inp')
    by (trivial; lia).
  rewrite store_nothing.
  destruct (Z.leb_spec count 0); [reflexivity | lia].
Qed.

(** C5 (amended).  A header-phase read that returns [c <= 0] makes
    [read_cmd] return [c] itself, and a body-phase read that returns
    [c' <= 0] makes it return [0].  The two values therefore differ exactly
    when the header-phase read returned a negative value: a stream closed
    during the header ([c = 0]) and any failure during the body both give
    [0]. *)
Theorem failure_value_by_phase (signed_char : bool) (a : realloc_reply)
    (rh rb : reader) (hh hb : heap) (inph inph' inpb inpb' : instream)
    (dh db : list Z) (b0 b1 c c' : Z) :
  0 <= curpos rh < 2 ->
  sys_read inph (2 - curpos rh) = (c, dh, inph') ->
  c <= 0 ->
  header_bytes hb (pbuf rb) = Done (b0, b1) ->
  2 <= curpos rb <= frame_len signed_char b0 b1 + 2 ->
  frame_len signed_char b0 b1 <= size rb ->
  sys_read inpb (frame_len signed_char b0 b1 - curpos rb + 2) = (c', db, inpb') ->
  c' <= 0 ->
  read_cmd signed_char a rh hh inph = Done (mkReturned c rh hh inph') /\
  read_cmd signed_char a rb hb inpb = Done (mkReturned 0 rb hb inpb') /\
  (c <> 0 <-> c < 0).
Proof.
  intros Hcur Hread Hc Hh Hcurb Hsize Hreadb Hc'.
  split; [ | split].
  - now apply read_cmd_header_failed with (data := dh).
  - now apply read_cmd_body_failed with (data := db) (b0 := b0) (b1 := b1) (count := c').
  - lia.
Qed.

Lemma failure_value_by_phase_witness :
  read_cmd true ReallocNull (mkReader 0 8 0) [Some [0; 0; 0; 0; 0; 0; 0; 0]] [ReadError] =
    Done (mkReturned (-1) (mkReader 0 8 0) [Some [0; 0; 0; 0; 0; 0; 0; 0]] []) /\
  read_cmd true ReallocNull (mkReader 0 8 4) [Some [0; 5; 1; 2; 0; 0; 0; 0]] [ReadError] =
    Done (mkReturned 0 (mkReader 0 8 4) [Some [0; 5; 1; 2; 0; 0; 0; 0]] []) /\
  (-1 <> 0 <-> -1 < 0).
Proof.
  apply (failure_value_by_phase true ReallocNull
           (mkReader 0 8 0) (mkReader 0 8 4)
           [Some [0; 0; 0; 0; 0; 0; 0; 0]] [Some [0; 5; 1; 2; 0; 0; 0; 0]]
           [ReadError] [] [ReadError] [] [] [] 0 5 (-1) (-1));
    evaluated.
Defined.

(** C5, as stated, fails: the stream closes before any header byte, and the
    stream closes after the header and two body bytes; both calls return
    [0]. *)
Lemma closure_in_header_and_in_body_both_return_0 :
  read_cmd true ReallocNull (mkReader 0 8 0) [Some [0; 0; 0; 0; 0; 0; 0; 0]] [] =
    Done (mkReturned 0 (mkReader 0 8 0) [Some [0; 0; 0; 0; 0; 0; 0; 0]] []) /\
  read_cmd true ReallocNull (mkReader 0 8 4) [Some [0; 5; 1; 2; 0; 0; 0; 0]] [] =
    Done (mkReturned 0 (mkReader 0 8 4) [Some [0; 5; 1; 2; 0; 0; 0; 0]] []).
Proof. split; reflexivity. Qed.

(** ** Scenario A *)

Lemma frame_len_0_5 (s : bool) : frame_len s 0 5 = 5.
Proof. now destruct s. Qed.

(** C3 (amended).  With [0x00, 0x05] delivered first and
    [0x01 .. 0x05] delivered later, into a buffer of at least 7 bytes with a
    capacity of at least 5, the first [read_cmd] call does not return after
    the header: it decodes the length 5, goes on to the body read, which
    waits for the later delivery, and returns [2] with cursor [7] and the
    body bytes [1, 2, 3, 4, 5] in place. *)
Theorem scenario_a_first_call_reads_whole_frame (signed_char : bool)
    (a : realloc_reply) (p : block) (sz : Z) (h : heap) (bs : list Z) :
  load_block h p = Some bs ->
  7 <= Z.of_nat (length bs) ->
  5 <= sz ->
  frame_len signed_char 0 5 = 5 /\
  read_cmd signed_char a (mkReader p sz 0) h
    [Deliver [0; 5]; Deliver [1; 2; 3; 4; 5]] =
  Done (mkReturned 2 (mkReader p sz 7)
          (<[p := Some ([0; 5; 1; 2; 3; 4; 5] ++ drop 7 bs)]> h) []).
Proof.
  intros Hload Hlen Hsz. split; [apply frame_len_0_5 | ].
  rewrite (read_cmd_header_completed signed_char a (mkReader p sz 0) h
             [Deliver [0; 5]; Deliver [1; 2; 3; 4; 5]]
             [Deliver [1; 2; 3; 4; 5]] bs [0; 5] 2);
    trivial; simpl; try lia.
  change (splice bs (Z.to_nat 0) [0; 5]) with (0 :: 5 :: drop 2 bs).
  set (h1 := <[p := Some (0 :: 5 :: drop 2 bs)]> h).
  assert (Hload1 : load_block h1 p = Some (0 :: 5 :: drop 2 bs))
    by (now apply load_block_insert with (old := bs)).
  rewrite (body_phase_no_growth signed_char a _ h1 _ 0 5);
    [ | now apply header_bytes_of_block with (bs := 0 :: 5 :: drop 2 bs)
      | rewrite frame_len_0_5; simpl; lia ].
  rewrite frame_len_0_5. simpl curpos.
  change (remaining 5 2) with 5.
  rewrite (read_body_positive (set_curpos (mkReader p sz 0) 2) h1
             [Deliver [1; 2; 3; 4; 5]] [] (0 :: 5 :: drop 2 bs)
             [1; 2; 3; 4; 5] 5 5); trivial; simpl; try lia.
  - unfold h1. rewrite list_insert_insert_eq.
    unfold set_curpos, splice. simpl. rewrite drop_drop. reflexivity.
  - rewrite length_drop. lia.
  - unfold int_range. lia.
Qed.

Lemma scenario_a_first_call_reads_whole_frame_witness :
  frame_len true 0 5 = 5 /\
  read_cmd true ReallocNull (mkReader 0 8 0) [Some [0; 0; 0; 0; 0; 0; 0; 0]]
    [Deliver [0; 5]; Deliver [1; 2; 3; 4; 5]] =
  Done (mkReturned 2 (mkReader 0 8 7)
          (<[0%nat := Some ([0; 5; 1; 2; 3; 4; 5] ++ drop 7 [0; 0; 0; 0; 0; 0; 0; 0])]>
             [Some [0; 0; 0; 0; 0; 0; 0; 0]]) []).
Proof.
  apply (scenario_a_first_call_reads_whole_frame true ReallocNull 0%nat 8
           [Some [0; 0; 0; 0; 0; 0; 0; 0]] [0; 0; 0; 0; 0; 0; 0; 0]);
    evaluated.
Defined.

(** C3, as stated, fails: the first call on Scenario A's input returns [2]
    with cursor [7], not [1] with cursor [2]. *)
Lemma scenario_a_first_call_is_not_call_again :
  read_cmd true ReallocNull (mkReader 0 8 0) [Some [0; 0; 0; 0; 0; 0; 0; 0]]
    [Deliver [0; 5]; Deliver [1; 2; 3; 4; 5]] =
  Done (mkReturned 2 (mkReader 0 8 7) [Some [0; 5; 1; 2; 3; 4; 5; 0]] []) /\
  read_cmd true ReallocNull (mkReader 0 8 0) [Some [0; 0; 0; 0; 0; 0; 0; 0]]
    [Deliver [0; 5]; Deliver [1; 2; 3; 4; 5]] <>
  Done (mkReturned 1 (mkReader 0 8 2) [Some [0; 5; 0; 0; 0; 0; 0; 0]]
          [Deliver [1; 2; 3; 4; 5]]).
Proof. split; [reflexivity | discriminate]. Qed.

(** ** Capacity *)

Lemma read_body_keeps_reader (r : reader) (h : heap) (inp : instream) (n : Z)
    (res : returned) :
  read_body r h inp n = Done res ->
  pbuf (rd res) = pbuf r /\ size (rd res) = size r.
Proof.
  unfold read_body. intros H. case_on_matches; now split.
Qed.

Lemma body_phase_capacity (s : bool) (a : realloc_reply) (r : reader) (h : heap)
    (inp : instream) (res : returned) :
  body_phase s a r h inp = Done res -> size r <= size (rd res).
Proof.
  unfold body_phase. intros H.
  destruct (header_bytes h (pbuf r)) as [[b0 b1] | | ]; try discriminate.
  destruct (Z.ltb_spec (size r) (frame_len s b0 b1)) as [Hlt | Hge].
  - destruct (realloc h (pbuf r) _ a) as [[[newbuf | ] h1] | | ]; try discriminate.
    + destruct (memset_zero h1 (pbuf r) _) as [h2 | | ]; try discriminate.
      apply read_body_keeps_reader in H as [_ ->]. simpl. lia.
    + injection H as <-. simpl. lia.
  - apply read_body_keeps_reader in H as [_ ->]. lia.
Qed.

Lemma read_cmd_capacity (s : bool) (a : realloc_reply) (r : reader) (h : heap)
    (inp : instream) (res : returned) :
  read_cmd s a r h inp = Done res -> size r <= size (rd res).
Proof.
  unfold read_cmd. intros H.
  destruct (curpos r <? 2); [ | now apply body_phase_capacity in H].
  destruct (read_into h (pbuf r) (curpos r) _ inp) as [[[count h1] inp1] | | ];
    try discriminate.
  destruct (count <=? 0); [injection H as <-; simpl; lia | ].
  destruct (curpos (set_curpos r _) <? 2); [injection H as <-; simpl; lia | ].
  now apply body_phase_capacity in H.
Qed.

Lemma read_loop_capacity (s : bool) (r r' : reader) (h h' : heap) :
  read_loop s r h r' h' -> size r <= size r'.
Proof.
  induction 1 as [r h | a r h inp res r' h' Hcall _ IH | c r h r' h' _ IH].
  - lia.
  - apply read_cmd_capacity in Hcall. lia.
  - exact IH.
Qed.

(** A growth that fails: [-1], and nothing has moved. *)
Lemma body_phase_realloc_null (s : bool) (r : reader) (h : heap) (inp : instream)
    (b0 b1 : Z) :
  header_bytes h (pbuf r) = Done (b0, b1) ->
  0 <= size r < frame_len s b0 b1 ->
  body_phase s ReallocNull r h inp = Done (mkReturned (-1) r h inp).
Proof.
  intros Hh Hlt. unfold body_phase. rewrite Hh.
  pose proof (frame_len_range s b0 b1) as HL.
  destruct (Z.ltb_spec (size r) (frame_len s b0 b1)); [ | lia].
  unfold realloc. unfold header_bytes in Hh.
  destruct (load_block h (pbuf r)); [ | discriminate].
  rewrite size_t_small by lia.
  destruct (Z.eqb_spec (frame_len s b0 b1) 0); [lia | reflexivity].
Qed.

(** C6.  Over every run of [read_cmd] calls (with the caller moving the
    cursor in between) the capacity [size] never decreases; and when a buffer
    whose capacity is not negative has to grow and [realloc] returns null,
    the code from the growth attempt on returns [-1] with the pointer, the
    capacity, the cursor, the whole heap and the stream exactly as they were
    when growth was attempted (for a call entered in the body phase: as they
    were at the call).  The request is then of [len >= 1] bytes, so the null
    result is a failed allocation. *)
Theorem capacity_never_decreases_and_failed_growth_changes_nothing
    (signed_char : bool) (r r' : reader) (h h' : heap)
    (rg : reader) (hg : heap) (inp : instream) (b0 b1 : Z) :
  read_loop signed_char r h r' h' ->
  header_bytes hg (pbuf rg) = Done (b0, b1) ->
  0 <= size rg < frame_len signed_char b0 b1 ->
  size r <= size r' /\
  body_phase signed_char ReallocNull rg hg inp = Done (mkReturned (-1) rg hg inp) /\
  (2 <= curpos rg ->
   read_cmd signed_char ReallocNull rg hg inp = Done (mkReturned (-1) rg hg inp)).
Proof.
  intros Hloop Hh Hlt. split; [ | split].
  - now apply read_loop_capacity in Hloop.
  - now apply body_phase_realloc_null with (b0 := b0) (b1 := b1).
  - intros Hcur. rewrite read_cmd_in_body by assumption.
    now apply body_phase_realloc_null with (b0 := b0) (b1 := b1).
Qed.

Lemma capacity_never_decreases_and_failed_growth_changes_nothing_witness :
  size (mkReader 0 4 2) <= size (mkReader 0 8 4) /\
  body_phase true ReallocNull (mkReader 0 4 2) [Some [0; 8; 17; 34]] [Deliver [1; 2]] =
    Done (mkReturned (-1) (mkReader 0 4 2) [Some [0; 8; 17; 34]] [Deliver [1; 2]]) /\
  (2 <= curpos (mkReader 0 4 2) ->
   read_cmd true ReallocNull (mkReader 0 4 2) [Some [0; 8; 17; 34]] [Deliver [1; 2]] =
     Done (mkReturned (-1) (mkReader 0 4 2) [Some [0; 8; 17; 34]] [Deliver [1; 2]])).
Proof.
  apply (capacity_never_decreases_and_failed_growth_changes_nothing true
           (mkReader 0 4 2) (mkReader 0 8 4)
           [Some [0; 8; 17; 34]] [Some [0; 0; 1; 2; 170; 170; 170; 170]]
           (mkReader 0 4 2) [Some [0; 8; 17; 34]] [Deliver [1; 2]] 0 8).
  - apply (loop_call true (ReallocInPlace (fun _ => 170)) (mkReader 0 4 2)
             [Some [0; 8; 17; 34]] [Deliver [1; 2]]
             (mkReturned 2 (mkReader 0 8 4)
                [Some [0; 0; 1; 2; 170; 170; 170; 170]] [])).
    + reflexivity.
    + apply loop_stop.
  - reflexivity.
  - evaluated.
Defined.

(** ** Growth *)

(** C2, at a failing input.  A 4-byte buffer holds the header [0x00, 0x08]
    and two more bytes, the cursor is [2], and two body bytes arrive.  When
    [realloc] grows the block where it is, [memset] clears the first
    [len - size = 4] bytes of the buffer, header included, and the added
    region [4, 8) keeps what the allocator left there ([0xAA] here).  When
    [realloc] moves the block, [memset] writes through the old, freed
    address. *)
Theorem growth_clears_buffer_start_not_added_region :
  read_cmd true (ReallocInPlace (fun _ => 0xAA)) (mkReader 0 4 2)
    [Some [0x00; 0x08; 0x11; 0x22]] [Deliver [1; 2]] =
  Done (mkReturned 2 (mkReader 0 8 4)
          [Some [0; 0; 1; 2; 0xAA; 0xAA; 0xAA; 0xAA]] []) /\
  read_cmd true (ReallocMoved (fun _ => 0xAA)) (mkReader 0 4 2)
    [Some [0x00; 0x08; 0x11; 0x22]] [Deliver [1; 2]] =
  Crash BadPointer.
Proof. split; reflexivity. Qed.

(** ** The writer *)

(** One [write] returns [-1], [0] or a count of at most the bytes asked for,
    and the sink receives exactly the bytes it counts, taken in order from
    the source. *)
Lemma sys_write_count (s s' : sink) (avail : list Z) (n i : Z) :
  0 <= n ->
  sys_write s avail n = Done (i, s') ->
  -1 <= i <= n /\ (n = 0 -> i = 0) /\
  sent s' = sent s ++ take (Z.to_nat i) avail.
Proof.
  intros Hn. unfold sys_write, transfer.
  destruct (Z.eqb_spec n 0) as [-> | Hnz].
  - intros [= <- <-]. simpl. rewrite app_nil_r. repeat split; lia.
  - destruct (replies s) as [ | [k | | ] rs].
    + destruct (n <=? Z.of_nat (length avail)); [ | discriminate].
      intros [= <- <-]. simpl. repeat split; lia.
    + destruct (Z.min (Z.pos k) n <=? Z.of_nat (length avail)); [ | discriminate].
      intros [= <- <-]. simpl. repeat split; lia.
    + intros [= <- <-]. simpl. rewrite app_nil_r. repeat split; lia.
    + intros [= <- <-]. simpl. rewrite app_nil_r. repeat split; lia.
Qed.

Lemma request_small (len wrote : Z) :
  0 <= wrote <= len -> len < 2 ^ 31 ->
  size_t_of_int (int_wrap (len - wrote)) = len - wrote.
Proof.
  intros Hw Hl. rewrite int_wrap_small by (unfold int_range; lia).
  apply size_t_small. lia.
Qed.

(** The loop of [write_exact] ends within the fuel it is given. *)
Lemma write_exact_loop_finishes (fuel : nat) (buf : list Z) (len wrote : Z) (s : sink) :
  0 <= wrote <= len -> len < 2 ^ 31 ->
  (Z.to_nat (len - wrote) < fuel)%nat ->
  write_exact_loop fuel buf len wrote s <> Unfinished.
Proof.
  revert wrote s.
  induction fuel as [ | fuel IH]; intros wrote s Hw Hl Hfuel; [lia | ].
  simpl. rewrite request_small by assumption.
  destruct (sys_write s (drop (Z.to_nat wrote) buf) (len - wrote))
    as [[i s1] | f | ] eqn:Ew; [ | discriminate | ].
  - apply sys_write_count in Ew as (Hi & Hzero & _); [ | lia].
    destruct (Z.leb_spec i 0); [discriminate | ].
    rewrite int_wrap_small by (unfold int_range; lia).
    destruct (Z.ltb_spec (wrote + i) len); [ | discriminate].
    apply IH; lia.
  - exfalso. unfold sys_write, transfer in Ew.
    destruct (len - wrote =? 0); [discriminate | ].
    destruct (replies s) as [ | [k | | ] rs]; try discriminate;
      match type of Ew with (if ?c then _ else _) = _ => destruct c end;
      discriminate.
Qed.

(** [write_exact] always comes back: it returns or it faults. *)
Lemma write_exact_total (buf : list Z) (len : Z) (s : sink) :
  0 <= len < 2 ^ 31 -> write_exact buf len s <> Unfinished.
Proof.
  intros Hl. unfold write_exact. apply write_exact_loop_finishes; lia.
Qed.

(** What [write_exact] has sent when it returns: a prefix of the span, with
    no gap and no repetition; all of it when the value is positive; and a
    value that is not positive is that of the [write] that failed. *)
Lemma write_exact_loop_sent (fuel : nat) (buf : list Z) (len wrote v : Z)
    (s s' : sink) :
  0 <= wrote <= len -> len < 2 ^ 31 ->
  write_exact_loop fuel buf len wrote s = Done (v, s') ->
  exists k, wrote <= k <= len /\
    sent s' = sent s ++ take (Z.to_nat (k - wrote)) (drop (Z.to_nat wrote) buf) /\
    -1 <= v /\ (0 < v -> v = len /\ k = len).
Proof.
  revert wrote s.
  induction fuel as [ | fuel IH]; intros wrote s Hw Hl; [discriminate | ].
  simpl. rewrite request_small by assumption.
  destruct (sys_write s (drop (Z.to_nat wrote) buf) (len - wrote))
    as [[i s1] | f | ] eqn:Ew; try discriminate.
  apply sys_write_count in Ew as (Hi & Hzero & Hsent); [ | lia].
  destruct (Z.leb_spec i 0) as [Hle | Hpos].
  - intros [= <- <-]. exists wrote.
    replace (Z.to_nat (wrote - wrote)) with 0%nat by lia.
    replace (Z.to_nat i) with 0%nat in Hsent by lia.
    split; [lia | split; [exact Hsent | split; lia]].
  - rewrite int_wrap_small by (unfold int_range; lia).
    destruct (Z.ltb_spec (wrote + i) len) as [Hlt | Hge].
    + intros Hrec. apply IH in Hrec as (k & Hk & Hsent' & Hv); try lia.
      exists k. split; [lia | split; [ | exact Hv]].
      rewrite Hsent', Hsent, <- app_assoc. f_equal.
      replace (Z.to_nat (wrote + i)) with (Z.to_nat wrote + Z.to_nat i)%nat by lia.
      rewrite <- drop_drop, take_take_drop. f_equal. lia.
    + intros [= <- <-]. exists len.
      replace (len - wrote) with i by lia.
      split; [lia | split; [exact Hsent | split; lia]].
Qed.

Lemma write_exact_sent (buf : list Z) (len v : Z) (s s' : sink) :
  0 <= len < 2 ^ 31 ->
  write_exact buf len s = Done (v, s') ->
  exists k, 0 <= k <= len /\
    sent s' = sent s ++ take (Z.to_nat k) buf /\
    -1 <= v /\ (0 < v -> v = len /\ k = len).
Proof.
  intros Hl H. unfold write_exact in H.
  apply write_exact_loop_sent in H as (k & Hk & Hsent & Hv); try lia.
  exists k. rewrite Z.sub_0_r in Hsent. split; [lia | split; [exact Hsent | exact Hv]].
Qed.

(** C4, at a failing input.  The payload is the single byte [0x41] and the
    first [write] of the call fails with [-1].  [write_cmd] does not return
    that value: it goes on to write the second header byte and the payload,
    and returns [1]; the host has received [0x01, 0x41], a frame without its
    first header byte.  (When the failing [write] is that of the payload,
    its value is returned.) *)
Theorem write_cmd_goes_on_after_failed_header_write :
  write_cmd (mkBuff [0x41] 1) (mkSink [] [WriteError]) =
    Done (1, mkSink [0x01; 0x41] []) /\
  write_cmd (mkBuff [0x41] 1) (mkSink [] [Accept 1; Accept 1; WriteError]) =
    Done (-1, mkSink [0x00; 0x01] []).
Proof. split; reflexivity. Qed.

(** ** The reply encoder *)

(** When a step of the [||] chain fails, the call skips what follows,
    [write_cmd] included. *)
Lemma send_after_failed_encoding
    (new_with_version : ei_x_buff -> Z * ei_x_buff)
    (encode_tuple_header : ei_x_buff -> Z -> Z * ei_x_buff)
    (encode_atom : ei_x_buff -> string -> Z * ei_x_buff)
    (encode_ulong : ei_x_buff -> Z -> Z * ei_x_buff)
    (tuple_header_size : Z)
    (str : string) (value : Z) (result0 : ei_x_buff) (s : sink) :
  fst (encode_steps new_with_version encode_tuple_header encode_atom
         encode_ulong tuple_header_size str value result0) = false ->
  exists log,
    send_answer_string_ulong new_with_version encode_tuple_header encode_atom
      encode_ulong tuple_header_size str value result0 s =
    Done (mkAnswered (-1) s
            (log ++ [CallFree (snd (encode_steps new_with_version
                                      encode_tuple_header encode_atom encode_ulong
                                      tuple_header_size str value result0))])) /\
    existsb is_write_call log = false /\ existsb is_free_call log = false.
Proof.
  unfold encode_steps, send_answer_string_ulong, finish.
  destruct (new_with_version result0) as [e1 b1].
  destruct (negb (e1 =? 0)).
  { intros _. exists [CallNewWithVersion]. now repeat split. }
  destruct (encode_tuple_header b1 tuple_header_size) as [e2 b2].
  destruct (negb (e2 =? 0)).
  { intros _.
    exists [CallNewWithVersion; CallEncodeTupleHeader tuple_header_size].
    now repeat split. }
  destruct (encode_atom b2 str) as [e3 b3].
  destruct (negb (e3 =? 0)).
  { intros _.
    exists [CallNewWithVersion; CallEncodeTupleHeader tuple_header_size;
            CallEncodeAtom str].
    now repeat split. }
  destruct (encode_ulong b3 value) as [e4 b4]. simpl.
  intros ->. simpl.
  exists [CallNewWithVersion; CallEncodeTupleHeader tuple_header_size;
          CallEncodeAtom str; CallEncodeUlong value].
  now repeat split.
Qed.

(** When every step succeeds, the call is [write_cmd] on the encoded buffer,
    then [ei_x_free]; only the value [0] of [write_cmd] makes it fail. *)
Lemma send_after_encoding
    (new_with_version : ei_x_buff -> Z * ei_x_buff)
    (encode_tuple_header : ei_x_buff -> Z -> Z * ei_x_buff)
    (encode_atom : ei_x_buff -> string -> Z * ei_x_buff)
    (encode_ulong : ei_x_buff -> Z -> Z * ei_x_buff)
    (tuple_header_size : Z)
    (str : string) (value : Z) (result0 : ei_x_buff) (s : sink) :
  fst (encode_steps new_with_version encode_tuple_header encode_atom
         encode_ulong tuple_header_size str value result0) = true ->
  exists log,
    existsb is_write_call log = false /\ existsb is_free_call log = false /\
    send_answer_string_ulong new_with_version encode_tuple_header encode_atom
      encode_ulong tuple_header_size str value result0 s =
    match write_cmd (snd (encode_steps new_with_version encode_tuple_header
                            encode_atom encode_ulong tuple_header_size
                            str value result0)) s with
    | Done (w, s') =>
        Done (mkAnswered (if w =? 0 then -1 else 0) s'
                (log ++ [CallWriteCmd (snd (encode_steps new_with_version
                                              encode_tuple_header encode_atom
                                              encode_ulong tuple_header_size
                                              str value result0));
                         CallFree (snd (encode_steps new_with_version
                                          encode_tuple_header encode_atom
                                          encode_ulong tuple_header_size
                                          str value result0))]))
    | Crash f => Crash f
    | Unfinished => Unfinished
    end.
Proof.
  unfold encode_steps, send_answer_string_ulong, finish.
  destruct (new_with_version result0) as [e1 b1].
  destruct (negb (e1 =? 0)); [discriminate | ].
  destruct (encode_tuple_header b1 tuple_header_size) as [e2 b2].
  destruct (negb (e2 =? 0)); [discriminate | ].
  destruct (encode_atom b2 str) as [e3 b3].
  destruct (negb (e3 =? 0)); [discriminate | ].
  destruct (encode_ulong b3 value) as [e4 b4]. simpl.
  intros ->. simpl.
  exists [CallNewWithVersion; CallEncodeTupleHeader tuple_header_size;
          CallEncodeAtom str; CallEncodeUlong value].
  split; [reflexivity | split; [reflexivity | ]].
  now destruct (write_cmd b4 s) as [[w s'] | f | ].
Qed.

Lemma existsb_app_false {A : Type} (f : A -> bool) (l k : list A) :
  existsb f l = false -> existsb f k = false -> existsb f (l ++ k) = false.
Proof. intros Hl Hk. now rewrite existsb_app, Hl, Hk. Qed.

(** C9.  Whatever the encoders do: if an encoding step fails, the call
    returns [-1], the sink is as it was (no [write] has been issued: the log
    has no [write_cmd] call), and [write_cmd] appears in the log of a call
    only when every encoding step succeeded; and every call that returns has
    called [ei_x_free] exactly once, as its last action. *)
Theorem failed_encoding_sends_nothing_and_buffer_is_always_freed
    (new_with_version : ei_x_buff -> Z * ei_x_buff)
    (encode_tuple_header : ei_x_buff -> Z -> Z * ei_x_buff)
    (encode_atom : ei_x_buff -> string -> Z * ei_x_buff)
    (encode_ulong : ei_x_buff -> Z -> Z * ei_x_buff)
    (tuple_header_size : Z)
    (str : string) (value : Z) (result0 : ei_x_buff) (s : sink) :
  (fst (encode_steps new_with_version encode_tuple_header encode_atom
          encode_ulong tuple_header_size str value result0) = false ->
   exists res,
     send_answer_string_ulong new_with_version encode_tuple_header encode_atom
       encode_ulong tuple_header_size str value result0 s = Done res /\
     retval res = -1 /\ out res = s /\
     existsb is_write_call (calls res) = false) /\
  (forall res,
     send_answer_string_ulong new_with_version encode_tuple_header encode_atom
       encode_ulong tuple_header_size str value result0 s = Done res ->
     (existsb is_write_call (calls res) = true ->
      fst (encode_steps new_with_version encode_tuple_header encode_atom
             encode_ulong tuple_header_size str value result0) = true) /\
     exists log b,
       calls res = log ++ [CallFree b] /\ existsb is_free_call log = false).
Proof.
  destruct (fst (encode_steps new_with_version encode_tuple_header encode_atom
                   encode_ulong tuple_header_size str value result0)) eqn:Hok.
  - split; [discriminate | ].
    intros res Hres. split; [reflexivity | ].
    destruct (send_after_encoding _ _ _ _ _ _ _ _ s Hok) as (log & Hw & Hf & Hsend).
    rewrite Hsend in Hres.
    destruct (write_cmd _ s) as [[w s'] | f | ]; try discriminate.
    injection Hres as <-. simpl.
    eexists (log ++ [CallWriteCmd _]), _. split.
    + rewrite <- app_assoc. reflexivity.
    + now apply existsb_app_false.
  - destruct (send_after_failed_encoding _ _ _ _ _ _ _ _ s Hok)
      as (log & Hsend & Hw & Hf).
    split.
    + intros _. eexists. split; [exact Hsend | ]. simpl.
      repeat split. now apply existsb_app_false.
    + intros res Hres. rewrite Hsend in Hres. injection Hres as <-. simpl.
      split.
      * rewrite existsb_app, Hw. simpl. discriminate.
      * now exists log, (snd (encode_steps new_with_version encode_tuple_header
                                 encode_atom encode_ulong tuple_header_size
                                 str value result0)).
Qed.

(** Scenario B: the reply [("ok", 42)] with an integer encoder that fails. *)
Lemma failed_encoding_sends_nothing_and_buffer_is_always_freed_witness :
  exists res,
    send_answer_string_ulong sample_new_with_version sample_encode_tuple_header
      sample_encode_atom failing_encode_ulong 2 "ok" 42 (mkBuff [] 0)
      (mkSink [] []) = Done res /\
    retval res = -1 /\ out res = mkSink [] [] /\
    existsb is_write_call (calls res) = false.
Proof.
  apply (proj1 (failed_encoding_sends_nothing_and_buffer_is_always_freed
                  sample_new_with_version sample_encode_tuple_header
                  sample_encode_atom failing_encode_ulong 2 "ok" 42
                  (mkBuff [] 0) (mkSink [] []))).
  reflexivity.
Defined.

(** C10.  When every encoding step succeeds, the value of the call is [-1]
    only for a [write_cmd] value of exactly [0]; a negative [write_cmd]
    value, that of a failed [write], gives [0], the value of a reply that was
    sent. *)
Theorem negative_write_cmd_value_counts_as_success
    (new_with_version : ei_x_buff -> Z * ei_x_buff)
    (encode_tuple_header : ei_x_buff -> Z -> Z * ei_x_buff)
    (encode_atom : ei_x_buff -> string -> Z * ei_x_buff)
    (encode_ulong : ei_x_buff -> Z -> Z * ei_x_buff)
    (tuple_header_size : Z)
    (str : string) (value : Z) (result0 : ei_x_buff) (s s' : sink) (w : Z) :
  fst (encode_steps new_with_version encode_tuple_header encode_atom
         encode_ulong tuple_header_size str value result0) = true ->
  write_cmd (snd (encode_steps new_with_version encode_tuple_header encode_atom
                    encode_ulong tuple_header_size str value result0)) s =
    Done (w, s') ->
  exists res,
    send_answer_string_ulong new_with_version encode_tuple_header encode_atom
      encode_ulong tuple_header_size str value result0 s = Done res /\
    out res = s' /\
    (w < 0 -> retval res = 0) /\
    (retval res = -1 <-> w = 0).
Proof.
  intros Hok Hw.
  destruct (send_after_encoding _ _ _ _ _ _ _ _ s Hok) as (log & _ & _ & Hsend).
  rewrite Hw in Hsend. eexists. split; [exact Hsend | ]. simpl.
  split; [reflexivity | ].
  destruct (Z.eqb_spec w 0) as [-> | Hnz]; split; try lia; split; try lia; discriminate.
Qed.

Lemma negative_write_cmd_value_counts_as_success_witness :
  exists res,
    send_answer_string_ulong sample_new_with_version sample_encode_tuple_header
      sample_encode_atom sample_encode_ulong 2 "ok" 42 (mkBuff [] 0)
      (mkSink [] [Accept 1; Accept 1; WriteError]) = Done res /\
    out res = mkSink [0; 9] [] /\
    (-1 < 0 -> retval res = 0) /\
    (retval res = -1 <-> -1 = 0).
Proof.
  apply (negative_write_cmd_value_counts_as_success
           sample_new_with_version sample_encode_tuple_header
           sample_encode_atom sample_encode_ulong 2 "ok" 42 (mkBuff [] 0)
           (mkSink [] [Accept 1; Accept 1; WriteError]) (mkSink [0; 9] []) (-1));
    reflexivity.
Defined.

(** *** A sink that takes the bytes in pieces *)

Lemma write_exact_loop_accepting (fuel : nat) (buf : list Z) (len wrote : Z)
    (s : sink) :
  forallb is_accept (replies s) = true ->
  0 <= wrote < len -> len <= Z.of_nat (length buf) -> len < 2 ^ 31 ->
  (Z.to_nat (len - wrote) < fuel)%nat ->
  exists rs,
    write_exact_loop fuel buf len wrote s =
      Done (len, mkSink (sent s ++ take (Z.to_nat (len - wrote))
                                    (drop (Z.to_nat wrote) buf)) rs) /\
    forallb is_accept rs = true.
Proof.
  revert wrote s.
  induction fuel as [ | fuel IH]; intros wrote s Hacc Hw Hbuf Hl Hfuel; [lia | ].
  simpl. rewrite request_small by lia.
  assert (Havail : len - wrote <= Z.of_nat (length (drop (Z.to_nat wrote) buf)))
    by (rewrite length_drop; lia).
  unfold sys_write, transfer.
  destruct (Z.eqb_spec (len - wrote) 0); [lia | ].
  destruct (replies s) as [ | [k | | ] rs] eqn:Ers; try discriminate.
  - destruct (Z.leb_spec (len - wrote) (Z.of_nat (length (drop (Z.to_nat wrote) buf))));
      [ | lia].
    destruct (Z.leb_spec (len - wrote) 0); [lia | ].
    rewrite int_wrap_small by (unfold int_range; lia).
    destruct (Z.ltb_spec (wrote + (len - wrote)) len); [lia | ].
    now exists [].
  - simpl in Hacc.
    set (i := Z.min (Z.pos k) (len - wrote)).
    assert (Hi : 0 < i <= len - wrote) by (unfold i; lia).
    destruct (Z.leb_spec i (Z.of_nat (length (drop (Z.to_nat wrote) buf)))); [ | lia].
    destruct (Z.leb_spec i 0); [lia | ].
    rewrite int_wrap_small by (unfold int_range; lia).
    destruct (Z.ltb_spec (wrote + i) len) as [Hlt | Hge].
    + destruct (IH (wrote + i)
                  (mkSink (sent s ++ take (Z.to_nat i) (drop (Z.to_nat wrote) buf)) rs))
        as (rs' & Hrec & Hacc'); trivial; try lia.
      exists rs'. split; [ | exact Hacc'].
      rewrite Hrec. simpl. rewrite <- app_assoc. do 3 f_equal.
      replace (Z.to_nat (wrote + i)) with (Z.to_nat wrote + Z.to_nat i)%nat by lia.
      rewrite <- drop_drop, take_take_drop. do 2 f_equal. lia.
    + exists rs. split; [ | exact Hacc].
      replace (len - wrote) with i by lia. reflexivity.
Qed.

(** Partial writes: a sink that never fails, in whatever pieces it takes the
    bytes, receives the first [len] bytes of the buffer, once and in order. *)
Lemma write_exact_accepting (buf : list Z) (len : Z) (s : sink) :
  forallb is_accept (replies s) = true ->
  1 <= len < 2 ^ 31 -> len <= Z.of_nat (length buf) ->
  exists rs,
    write_exact buf len s = Done (len, mkSink (sent s ++ take (Z.to_nat len) buf) rs) /\
    forallb is_accept rs = true.
Proof.
  intros Hacc Hl Hbuf. unfold write_exact.
  destruct (write_exact_loop_accepting (S (Z.to_nat len)) buf len 0 s)
    as (rs & Hrun & Hacc'); trivial; try lia.
  exists rs. split; [ | exact Hacc'].
  rewrite Hrun. rewrite Z.sub_0_r. reflexivity.
Qed.

Lemma header_bytes_of_length (n : Z) :
  0 <= n <= 65535 ->
  byte_of_int (Z.land (Z.shiftr n 8) 0xff) = n / 256 /\
  byte_of_int (Z.land n 0xff) = n mod 256.
Proof.
  intros Hn. unfold byte_of_int.
  rewrite !land_low_byte, !Z.mod_mod by lia.
  rewrite Z.shiftr_div_pow2 by lia. change (2 ^ 8) with 256.
  split; [ | reflexivity].
  apply Z.mod_small. split; [apply Z.div_pos; lia | ].
  apply Z.div_lt_upper_bound; lia.
Qed.

(** On a sink that never fails, [write_cmd] sends the big-endian length and
    then the payload, and returns the payload length. *)
Lemma write_cmd_accepting (payload : list Z) (s : sink) :
  forallb is_accept (replies s) = true ->
  1 <= Z.of_nat (length payload) <= 65535 ->
  exists rs,
    write_cmd (mkBuff payload (Z.of_nat (length payload))) s =
      Done (Z.of_nat (length payload),
            mkSink (sent s ++ Z.of_nat (length payload) / 256
                           :: Z.of_nat (length payload) mod 256 :: payload) rs) /\
    forallb is_accept rs = true.
Proof.
  intros Hacc Hlen. unfold write_cmd. simpl index. simpl buff.
  destruct (header_bytes_of_length (Z.of_nat (length payload)) ltac:(lia)) as [-> ->].
  destruct (write_exact_accepting [Z.of_nat (length payload) / 256] 1 s)
    as (rs1 & -> & Hacc1); trivial; simpl; try lia.
  destruct (write_exact_accepting [Z.of_nat (length payload) mod 256] 1
              (mkSink (sent s ++ [Z.of_nat (length payload) / 256]) rs1))
    as (rs2 & -> & Hacc2); trivial; simpl; try lia.
  destruct (write_exact_accepting payload (Z.of_nat (length payload))
              (mkSink ((sent s ++ [Z.of_nat (length payload) / 256])
                         ++ [Z.of_nat (length payload) mod 256]) rs2))
    as (rs3 & -> & Hacc3); trivial; simpl; try lia.
  exists rs3. split; [ | exact Hacc3].
  rewrite Nat2Z.id, take_ge by lia.
  rewrite <- !app_assoc. reflexivity.
Qed.

(** ** Round trip *)

Lemma sys_read_whole_delivery (bytes : list Z) (rest : instream) :
  bytes <> [] ->
  sys_read (Deliver bytes :: rest) (Z.of_nat (length bytes)) =
    (Z.of_nat (length bytes), bytes, rest).
Proof.
  intros Hne. destruct bytes as [ | b bytes]; [congruence | ].
  cbn [sys_read].
  destruct (Z.eqb_spec (Z.of_nat (length (b :: bytes))) 0) as [E | _];
    [simpl in E; lia | ].
  rewrite Z.min_id, Nat2Z.id.
  rewrite take_ge, drop_ge by lia. reflexivity.
Qed.

Lemma sys_read_header_of_frame (b0 b1 : Z) (body : list Z) :
  sys_read [Deliver (b0 :: b1 :: body)] 2 = (2, [b0; b1], pending body []).
Proof.
  cbn [sys_read]. change (2 =? 0) with false. cbv iota.
  replace (Z.to_nat (Z.min 2 (Z.of_nat (length (b0 :: b1 :: body))))) with 2%nat
    by (simpl length; lia).
  reflexivity.
Qed.

(** A frame that arrives whole is read by one call, provided the buffer
    already holds [L + 2] bytes, the capacity is at least [L], and the body
    is not empty. *)
Lemma read_cmd_whole_frame (signed_char : bool) (a : realloc_reply) (p : block)
    (sz : Z) (h : heap) (bs body : list Z) (b0 b1 : Z) :
  load_block h p = Some bs ->
  frame_len signed_char b0 b1 = Z.of_nat (length body) ->
  1 <= Z.of_nat (length body) ->
  Z.of_nat (length body) + 2 <= Z.of_nat (length bs) ->
  Z.of_nat (length body) <= sz ->
  read_cmd signed_char a (mkReader p sz 0) h [Deliver (b0 :: b1 :: body)] =
    Done (mkReturned 2 (mkReader p sz (Z.of_nat (length body) + 2))
            (<[p := Some (b0 :: b1 :: body ++ drop (2 + length body) bs)]> h) []).
Proof.
  intros Hload HL Hbody Hfit Hsz.
  pose proof (frame_len_range signed_char b0 b1) as Hrange.
  assert (Hne : body <> []) by (destruct body; [simpl in Hbody; lia | discriminate]).
  rewrite (read_cmd_header_completed signed_char a (mkReader p sz 0) h
             [Deliver (b0 :: b1 :: body)] (pending body []) bs [b0; b1] 2);
    trivial; try (simpl; lia); [ | apply sys_read_header_of_frame].
  change (splice bs (Z.to_nat (curpos (mkReader p sz 0))) [b0; b1])
    with (b0 :: b1 :: drop 2 bs).
  change (pbuf (mkReader p sz 0)) with p.
  set (h1 := <[p := Some (b0 :: b1 :: drop 2 bs)]> h).
  assert (Hload1 : load_block h1 p = Some (b0 :: b1 :: drop 2 bs))
    by (now apply load_block_insert with (old := bs)).
  rewrite (body_phase_no_growth signed_char a _ h1 _ b0 b1);
    [ | now apply header_bytes_of_block with (bs := b0 :: b1 :: drop 2 bs)
      | simpl; lia ].
  rewrite HL. simpl curpos.
  rewrite remaining_small by (unfold int_range; lia).
  replace (Z.of_nat (length body) - 2 + 2) with (Z.of_nat (length body)) by lia.
  replace (pending body []) with [Deliver body]
    by (destruct body; [congruence | reflexivity]).
  rewrite (read_body_positive (set_curpos (mkReader p sz 0) 2) h1
             [Deliver body] [] (b0 :: b1 :: drop 2 bs) body
             (Z.of_nat (length body)) (Z.of_nat (length body)));
    trivial; try (simpl; lia).
  - unfold h1, set_curpos. simpl. rewrite list_insert_insert_eq.
    do 3 f_equal; [lia | ].
    unfold splice. simpl. rewrite drop_drop. reflexivity.
  - now apply sys_read_whole_delivery.
  - simpl. rewrite length_drop. lia.
  - unfold int_range. simpl. lia.
Qed.

(** X7.  The round trip where it holds: a payload of [1] to [65535] bytes, written
    to a sink that never fails and read back in one delivery into a buffer
    that already holds the whole frame, comes back as it was, with its
    length in the header. *)
Lemma round_trip_when_frame_fits (signed_char : bool) (a : realloc_reply)
    (payload : list Z) (s : sink) (p : block) (sz : Z) (h : heap) (bs : list Z) :
  forallb is_accept (replies s) = true ->
  sent s = [] ->
  1 <= Z.of_nat (length payload) <= 65535 ->
  load_block h p = Some bs ->
  Z.of_nat (length payload) + 2 <= Z.of_nat (length bs) ->
  Z.of_nat (length payload) <= sz ->
  exists b0 b1 rs,
    write_cmd (mkBuff payload (Z.of_nat (length payload))) s =
      Done (Z.of_nat (length payload), mkSink (b0 :: b1 :: payload) rs) /\
    frame_len signed_char b0 b1 = Z.of_nat (length payload) /\
    read_cmd signed_char a (mkReader p sz 0) h [Deliver (b0 :: b1 :: payload)] =
      Done (mkReturned 2 (mkReader p sz (Z.of_nat (length payload) + 2))
              (<[p := Some (b0 :: b1 :: payload ++ drop (2 + length payload) bs)]> h)
              []).
Proof.
  intros Hacc Hsent Hlen Hload Hfit Hsz.
  destruct (write_cmd_accepting payload s Hacc Hlen) as (rs & Hw & _).
  rewrite Hsent in Hw. simpl in Hw.
  set (L := Z.of_nat (length payload)) in *.
  assert (HL : frame_len signed_char (L / 256) (L mod 256) = L).
  { assert (H0 : is_byte (L / 256)).
    { unfold is_byte. split; [apply Z.div_pos; lia | ].
      apply Z.div_lt_upper_bound; lia. }
    assert (H1 : is_byte (L mod 256)) by (apply Z.mod_pos_bound; lia).
    rewrite frame_len_of_bytes by assumption.
    rewrite Z.mul_comm. symmetry. apply Z.div_mod. lia. }
  exists (L / 256), (L mod 256), rs. split; [exact Hw | split; [exact HL | ]].
  apply read_cmd_whole_frame; trivial; unfold L in *; lia.
Qed.

(** C7, at failing inputs.  The payload [1, 2, 3, 4, 5] is written as the
    frame [0, 5, 1, 2, 3, 4, 5].  A reader whose buffer has 4 bytes grows it
    to [len = 5] bytes and then reads the 5 body bytes at offset 2, past the
    end of the block; so does a reader whose buffer has exactly 5 bytes,
    which it does not grow.  The empty payload is written as the frame
    [0, 0] with the value [0], and read back with the value [0], the value of
    a failed body read. *)
Theorem round_trip_overruns_grown_buffer :
  write_cmd (mkBuff [1; 2; 3; 4; 5] 5) (mkSink [] []) =
    Done (5, mkSink [0; 5; 1; 2; 3; 4; 5] []) /\
  read_cmd true (ReallocInPlace (fun _ => 0)) (mkReader 0 4 0)
    [Some [0; 0; 0; 0]] [Deliver [0; 5; 1; 2; 3; 4; 5]] = Crash OutOfBounds /\
  read_cmd true ReallocNull (mkReader 0 5 0)
    [Some [0; 0; 0; 0; 0]] [Deliver [0; 5; 1; 2; 3; 4; 5]] = Crash OutOfBounds /\
  write_cmd (mkBuff [] 0) (mkSink [] []) = Done (0, mkSink [0; 0] []) /\
  read_cmd true ReallocNull (mkReader 0 8 0)
    [Some [0; 0; 0; 0; 0; 0; 0; 0]] [Deliver [0; 0]] =
    Done (mkReturned 0 (mkReader 0 8 2) [Some [0; 0; 0; 0; 0; 0; 0; 0]] []).
Proof. repeat split; reflexivity. Qed.

(** * Further properties of the reader and the writer *)

(** ** The header *)

(** X1.  The two header bytes [write_cmd] computes from [index] decode, by
    the formula of [read_cmd], to [index mod 65536]: to [index] itself
    exactly for the lengths a 16-bit header can carry. *)
Theorem header_written_decodes_to_length_mod_65536 (signed_char : bool) (n : Z) :
  frame_len signed_char (byte_of_int (Z.land (Z.shiftr n 8) 0xff))
                        (byte_of_int (Z.land n 0xff)) = n mod 65536 /\
  (frame_len signed_char (byte_of_int (Z.land (Z.shiftr n 8) 0xff))
                         (byte_of_int (Z.land n 0xff)) = n <-> 0 <= n <= 65535).
Proof.
  assert (H : frame_len signed_char (byte_of_int (Z.land (Z.shiftr n 8) 0xff))
                (byte_of_int (Z.land n 0xff)) = n mod 65536).
  { unfold byte_of_int. rewrite !land_low_byte, !Z.mod_mod by lia.
    rewrite Z.shiftr_div_pow2 by lia. change (2 ^ 8) with 256.
    rewrite frame_len_of_bytes by (apply Z.mod_pos_bound; lia).
    change 65536 with (256 * 256). rewrite Z.rem_mul_r by lia. lia. }
  split; [exact H | ]. rewrite H. split.
  - intros E. rewrite <- E. pose proof (Z.mod_pos_bound n 65536 ltac:(lia)). lia.
  - intros Hn. apply Z.mod_small. lia.
Qed.

(** ** [write_exact] on any sink *)

Lemma write_exact_loop_short (fuel : nat) (buf : list Z) (len wrote v : Z)
    (s s' : sink) :
  0 <= wrote < len -> len < 2 ^ 31 ->
  write_exact_loop fuel buf len wrote s = Done (v, s') ->
  v <= 0 ->
  exists k, wrote <= k < len /\
    sent s' = sent s ++ take (Z.to_nat (k - wrote)) (drop (Z.to_nat wrote) buf).
Proof.
  revert wrote s.
  induction fuel as [ | fuel IH]; intros wrote s Hw Hl; [discriminate | ].
  simpl. rewrite request_small by lia.
  destruct (sys_write s (drop (Z.to_nat wrote) buf) (len - wrote))
    as [[i s1] | f | ] eqn:Ew; try discriminate.
  apply sys_write_count in Ew as (Hi & Hzero & Hsent); [ | lia].
  destruct (Z.leb_spec i 0) as [Hle | Hpos].
  - intros [= <- <-] _. exists wrote.
    replace (Z.to_nat (wrote - wrote)) with 0%nat by lia.
    replace (Z.to_nat i) with 0%nat in Hsent by lia.
    split; [lia | exact Hsent].
  - rewrite int_wrap_small by (unfold int_range; lia).
    destruct (Z.ltb_spec (wrote + i) len) as [Hlt | Hge].
    + intros Hrec Hv. apply IH in Hrec as (k & Hk & Hsent'); try lia.
      exists k. split; [lia | ].
      rewrite Hsent', Hsent, <- app_assoc. f_equal.
      replace (Z.to_nat (wrote + i)) with (Z.to_nat wrote + Z.to_nat i)%nat by lia.
      rewrite <- drop_drop, take_take_drop. f_equal. lia.
    + intros [= <- <-] Hv. lia.
Qed.

(** X2.  Whatever the sink answers, [write_exact] comes back (its loop ends:
    every [write] that does not fail moves [wrote] forward), and what it has
    sent is then a prefix of the first [len] bytes of the buffer, without gap
    or repetition.  Its value is [len], with all [len] bytes sent, or the
    value [0] or [-1] of a [write] that failed, with fewer than [len] bytes
    sent when [len] is positive. *)
Theorem write_exact_returns_having_sent_a_prefix (buf : list Z) (len : Z) (s : sink) :
  0 <= len < 2 ^ 31 ->
  write_exact buf len s <> Unfinished /\
  forall v s',
    write_exact buf len s = Done (v, s') ->
    exists k, 0 <= k <= len /\
      sent s' = sent s ++ take (Z.to_nat k) buf /\
      (v = len /\ k = len \/ (v = 0 \/ v = -1) /\ (0 < len -> k < len)).
Proof.
  intros Hl. split; [now apply write_exact_total | ].
  intros v s' Hrun.
  destruct (write_exact_sent buf len v s s' Hl Hrun) as (k & Hk & Hsent & Hv & Hpos).
  destruct (Z.ltb_spec 0 v) as [Hv0 | Hv0].
  - exists k. split; [exact Hk | split; [exact Hsent | left; now apply Hpos]].
  - destruct (Z.eq_dec len 0) as [-> | Hnz].
    + exists k. split; [exact Hk | split; [exact Hsent | right; lia]].
    + unfold write_exact in Hrun.
      apply write_exact_loop_short in Hrun as (k' & Hk' & Hsent'); try lia.
      exists k'. rewrite Z.sub_0_r in Hsent'.
      split; [lia | split; [exact Hsent' | right; lia]].
Qed.

Lemma write_exact_returns_having_sent_a_prefix_witness :
  write_exact [1; 2; 3; 4; 5] 5 (mkSink [] [Accept 2; WriteError; Accept 9]) <> Unfinished /\
  forall v s',
    write_exact [1; 2; 3; 4; 5] 5 (mkSink [] [Accept 2; WriteError; Accept 9]) = Done (v, s') ->
    exists k, 0 <= k <= 5 /\
      sent s' = sent (mkSink [] [Accept 2; WriteError; Accept 9])
                  ++ take (Z.to_nat k) [1; 2; 3; 4; 5] /\
      (v = 5 /\ k = 5 \/ (v = 0 \/ v = -1) /\ (0 < 5 -> k < 5)).
Proof.
  apply (write_exact_returns_having_sent_a_prefix [1; 2; 3; 4; 5] 5
           (mkSink [] [Accept 2; WriteError; Accept 9])).
  evaluated.
Defined.

Lemma accepted_nonneg (ks : list positive) : 0 <= accepted ks.
Proof. induction ks as [ | k ks IH]; simpl; lia. Qed.

Lemma write_exact_loop_until_failure (fuel : nat) (buf : list Z) (len wrote : Z)
    (sent0 : list Z) (ks : list positive) (failing : write_reply)
    (rest : list write_reply) :
  is_accept failing = false ->
  0 <= wrote -> wrote + accepted ks < len -> len <= Z.of_nat (length buf) ->
  len < 2 ^ 31 ->
  (Z.to_nat (len - wrote) < fuel)%nat ->
  write_exact_loop fuel buf len wrote (mkSink sent0 (map Accept ks ++ failing :: rest)) =
    Done (match failing with WriteError => -1 | _ => 0 end,
          mkSink (sent0 ++ take (Z.to_nat (accepted ks)) (drop (Z.to_nat wrote) buf)) rest).
Proof.
  revert fuel wrote sent0.
  induction ks as [ | k ks IH]; intros fuel wrote sent0 Hf Hw Hsum Hbuf Hl Hfuel;
    (destruct fuel as [ | fuel]; [lia | ]).
  - simpl accepted in *. cbn [write_exact_loop].
    rewrite request_small by lia. unfold sys_write.
    destruct (Z.eqb_spec (len - wrote) 0); [lia | ].
    simpl. rewrite app_nil_r. now destruct failing.
  - pose proof (accepted_nonneg ks) as Hks.
    simpl accepted in *. cbn [write_exact_loop].
    rewrite request_small by lia. unfold sys_write, transfer.
    destruct (Z.eqb_spec (len - wrote) 0); [lia | ].
    cbn [map app replies sent].
    assert (Hmin : Z.min (Z.pos k) (len - wrote) = Z.pos k) by lia.
    rewrite Hmin.
    destruct (Z.leb_spec (Z.pos k) (Z.of_nat (length (drop (Z.to_nat wrote) buf))));
      [ | rewrite length_drop in *; lia].
    destruct (Z.leb_spec (Z.pos k) 0); [lia | ].
    rewrite int_wrap_small by (unfold int_range; lia).
    destruct (Z.ltb_spec (wrote + Z.pos k) len); [ | lia].
    rewrite IH by (trivial; lia).
    rewrite <- app_assoc. do 3 f_equal.
    replace (Z.to_nat (wrote + Z.pos k)) with (Z.to_nat wrote + Z.to_nat (Z.pos k))%nat by lia.
    rewrite <- drop_drop, take_take_drop. do 2 f_equal. lia.
Qed.

(** X3.  When the sink takes some pieces, fewer than [len] bytes in all, and
    then a [write] fails, [write_exact] returns the value of that [write]
    ([-1] for an error, [0] when nothing was taken) at once: the bytes taken
    so far have been sent, and no further [write] is issued (the sink's later
    answers are left unused). *)
Theorem write_exact_stops_at_first_failure (buf sent0 : list Z) (len : Z)
    (ks : list positive) (failing : write_reply) (rest : list write_reply) :
  is_accept failing = false ->
  accepted ks < len -> len <= Z.of_nat (length buf) -> len < 2 ^ 31 ->
  write_exact buf len (mkSink sent0 (map Accept ks ++ failing :: rest)) =
    Done (match failing with WriteError => -1 | _ => 0 end,
          mkSink (sent0 ++ take (Z.to_nat (accepted ks)) buf) rest).
Proof.
  intros Hf Hsum Hbuf Hl. unfold write_exact.
  pose proof (accepted_nonneg ks).
  rewrite write_exact_loop_until_failure by (trivial; lia).
  reflexivity.
Qed.

Lemma write_exact_stops_at_first_failure_witness :
  write_exact [1; 2; 3; 4; 5] 5
    (mkSink [9] (map Accept [2%positive; 1%positive] ++ WriteError :: [Accept 7])) =
  Done (-1, mkSink ([9] ++ take (Z.to_nat (accepted [2%positive; 1%positive])) [1; 2; 3; 4; 5])
              [Accept 7]).
Proof.
  apply (write_exact_stops_at_first_failure [1; 2; 3; 4; 5] [9] 5
           [2%positive; 1%positive] WriteError [Accept 7]);
    evaluated.
Defined.

(** ** [write_cmd] on a sink that never fails *)

Lemma header_bytes_of_index (n : Z) :
  byte_of_int (Z.land (Z.shiftr n 8) 0xff) = (n / 256) mod 256 /\
  byte_of_int (Z.land n 0xff) = n mod 256.
Proof.
  unfold byte_of_int. rewrite !land_low_byte, !Z.mod_mod by lia.
  rewrite Z.shiftr_div_pow2 by lia. now change (2 ^ 8) with 256.
Qed.

Lemma write_cmd_on_accepting_sink (b : ei_x_buff) (s : sink) :
  forallb is_accept (replies s) = true ->
  1 <= index b < 2 ^ 31 -> index b <= Z.of_nat (length (buff b)) ->
  exists rs,
    write_cmd b s =
      Done (index b,
            mkSink (sent s ++ (index b / 256) mod 256 :: index b mod 256
                           :: take (Z.to_nat (index b)) (buff b)) rs) /\
    forallb is_accept rs = true.
Proof.
  intros Hacc Hidx Hlen. unfold write_cmd.
  destruct (header_bytes_of_index (index b)) as [-> ->].
  destruct (write_exact_accepting [(index b / 256) mod 256] 1 s)
    as (rs1 & -> & Hacc1); trivial; simpl; try lia.
  destruct (write_exact_accepting [index b mod 256] 1
              (mkSink (sent s ++ [(index b / 256) mod 256]) rs1))
    as (rs2 & -> & Hacc2); trivial; simpl; try lia.
  destruct (write_exact_accepting (buff b) (index b)
              (mkSink ((sent s ++ [(index b / 256) mod 256])
                         ++ [index b mod 256]) rs2))
    as (rs3 & -> & Hacc3); trivial; simpl; try lia.
  exists rs3. split; [ | exact Hacc3].
  rewrite <- !app_assoc. reflexivity.
Qed.

(** X4.  On a sink that never fails, in whatever pieces it takes the bytes,
    [write_cmd] sends two header bytes and then the first [index] bytes of
    the buffer, once and in order, and returns [index].  The header is
    [index] reduced to 16 bits: a payload of more than 65535 bytes is sent
    whole, behind a header from which the reader decodes [index mod 65536]. *)
Theorem write_cmd_sends_header_then_payload (signed_char : bool)
    (b : ei_x_buff) (s : sink) :
  forallb is_accept (replies s) = true ->
  1 <= index b < 2 ^ 31 -> index b <= Z.of_nat (length (buff b)) ->
  exists b0 b1 rs,
    write_cmd b s =
      Done (index b,
            mkSink (sent s ++ b0 :: b1 :: take (Z.to_nat (index b)) (buff b)) rs) /\
    forallb is_accept rs = true /\
    is_byte b0 /\ is_byte b1 /\
    frame_len signed_char b0 b1 = index b mod 65536.
Proof.
  intros Hacc Hidx Hlen.
  destruct (write_cmd_on_accepting_sink b s Hacc Hidx Hlen) as (rs & Hw & Hrs).
  assert (H0 : is_byte ((index b / 256) mod 256)) by (apply Z.mod_pos_bound; lia).
  assert (H1 : is_byte (index b mod 256)) by (apply Z.mod_pos_bound; lia).
  exists ((index b / 256) mod 256), (index b mod 256), rs.
  split; [exact Hw | split; [exact Hrs | split; [exact H0 | split; [exact H1 | ]]]].
  rewrite frame_len_of_bytes by assumption.
  change 65536 with (256 * 256). rewrite Z.rem_mul_r by lia. lia.
Qed.

Lemma write_cmd_sends_header_then_payload_witness :
  exists b0 b1 rs,
    write_cmd (mkBuff [7; 8; 9; 0; 0] 3) (mkSink [] [Accept 1; Accept 5; Accept 2]) =
      Done (index (mkBuff [7; 8; 9; 0; 0] 3),
            mkSink (sent (mkSink [] [Accept 1; Accept 5; Accept 2])
                      ++ b0 :: b1 :: take (Z.to_nat (index (mkBuff [7; 8; 9; 0; 0] 3)))
                                          (buff (mkBuff [7; 8; 9; 0; 0] 3))) rs) /\
    forallb is_accept rs = true /\
    is_byte b0 /\ is_byte b1 /\
    frame_len true b0 b1 = index (mkBuff [7; 8; 9; 0; 0] 3) mod 65536.
Proof.
  apply (write_cmd_sends_header_then_payload true (mkBuff [7; 8; 9; 0; 0] 3)
           (mkSink [] [Accept 1; Accept 5; Accept 2]));
    evaluated.
Defined.

(** X5.  An empty payload ([index = 0]): on a sink that never fails
    [write_cmd] sends the header [0, 0] and returns [0], the value of the
    zero-length [write] of the body, which is also the value
    [send_answer_string_ulong] takes for a failure. *)
Theorem write_cmd_empty_payload_returns_0 (bytes : list Z) (s : sink) :
  forallb is_accept (replies s) = true ->
  exists rs,
    write_cmd (mkBuff bytes 0) s = Done (0, mkSink (sent s ++ [0; 0]) rs) /\
    forallb is_accept rs = true.
Proof.
  intros Hacc. unfold write_cmd. simpl index. simpl buff.
  change (byte_of_int (Z.land (Z.shiftr 0 8) 255)) with 0.
  change (byte_of_int (Z.land 0 255)) with 0.
  destruct (write_exact_accepting [0] 1 s) as (rs1 & -> & Hacc1);
    trivial; simpl; try lia.
  destruct (write_exact_accepting [0] 1 (mkSink (sent s ++ [0]) rs1))
    as (rs2 & -> & Hacc2); trivial; simpl; try lia.
  exists rs2. split; [ | exact Hacc2].
  rewrite <- app_assoc. reflexivity.
Qed.

Lemma write_cmd_empty_payload_returns_0_witness :
  exists rs,
    write_cmd (mkBuff [131] 0) (mkSink [5] [Accept 4]) =
      Done (0, mkSink (sent (mkSink [5] [Accept 4]) ++ [0; 0]) rs) /\
    forallb is_accept rs = true.
Proof.
  apply (write_cmd_empty_payload_returns_0 [131] (mkSink [5] [Accept 4])).
  reflexivity.
Defined.

(** ** A reply that is sent *)

(** X6.  When every encoder succeeds and the sink never fails,
    [send_answer_string_ulong] returns [0] having made its calls in the order
    of the source (the four encoders, [write_cmd], [ei_x_free]), and the
    host has received exactly one frame: the two header bytes of the encoded
    length and the encoded bytes. *)
Theorem reply_is_sent_as_one_frame
    (new_with_version : ei_x_buff -> Z * ei_x_buff)
    (encode_tuple_header : ei_x_buff -> Z -> Z * ei_x_buff)
    (encode_atom : ei_x_buff -> string -> Z * ei_x_buff)
    (encode_ulong : ei_x_buff -> Z -> Z * ei_x_buff)
    (tuple_header_size : Z)
    (str : string) (value : Z) (result0 encoded : ei_x_buff) (s : sink) :
  encode_steps new_with_version encode_tuple_header encode_atom
    encode_ulong tuple_header_size str value result0 = (true, encoded) ->
  forallb is_accept (replies s) = true ->
  1 <= index encoded < 2 ^ 31 ->
  index encoded <= Z.of_nat (length (buff encoded)) ->
  exists rs,
    send_answer_string_ulong new_with_version encode_tuple_header encode_atom
      encode_ulong tuple_header_size str value result0 s =
    Done (mkAnswered 0
            (mkSink (sent s ++ (index encoded / 256) mod 256 :: index encoded mod 256
                            :: take (Z.to_nat (index encoded)) (buff encoded)) rs)
            [CallNewWithVersion; CallEncodeTupleHeader tuple_header_size;
             CallEncodeAtom str; CallEncodeUlong value;
             CallWriteCmd encoded; CallFree encoded]).
Proof.
  unfold encode_steps, send_answer_string_ulong, finish.
  destruct (new_with_version result0) as [e1 b1].
  destruct (negb (e1 =? 0)); [discriminate | ].
  destruct (encode_tuple_header b1 tuple_header_size) as [e2 b2].
  destruct (negb (e2 =? 0)); [discriminate | ].
  destruct (encode_atom b2 str) as [e3 b3].
  destruct (negb (e3 =? 0)); [discriminate | ].
  destruct (encode_ulong b3 value) as [e4 b4].
  intros [= He4 ->] Hacc Hidx Hlen. rewrite He4. simpl negb. cbv iota.
  destruct (write_cmd_on_accepting_sink encoded s Hacc Hidx Hlen) as (rs & -> & _).
  exists rs. destruct (Z.eqb_spec (index encoded) 0); [lia | reflexivity].
Qed.

Lemma reply_is_sent_as_one_frame_witness :
  exists rs,
    send_answer_string_ulong sample_new_with_version sample_encode_tuple_header
      sample_encode_atom sample_encode_ulong 2 "ok" 42 (mkBuff [] 0)
      (mkSink [] [Accept 1; Accept 1; Accept 4]) =
    Done (mkAnswered 0
            (mkSink (sent (mkSink [] [Accept 1; Accept 1; Accept 4])
                       ++ (index (mkBuff [131; 104; 2; 119; 2; 111; 107; 97; 42] 9) / 256) mod 256
                       :: index (mkBuff [131; 104; 2; 119; 2; 111; 107; 97; 42] 9) mod 256
                       :: take (Z.to_nat (index (mkBuff [131; 104; 2; 119; 2; 111; 107; 97; 42] 9)))
                               (buff (mkBuff [131; 104; 2; 119; 2; 111; 107; 97; 42] 9))) rs)
            [CallNewWithVersion; CallEncodeTupleHeader 2;
             CallEncodeAtom "ok"; CallEncodeUlong 42;
             CallWriteCmd (mkBuff [131; 104; 2; 119; 2; 111; 107; 97; 42] 9);
             CallFree (mkBuff [131; 104; 2; 119; 2; 111; 107; 97; 42] 9)]).
Proof.
  apply (reply_is_sent_as_one_frame sample_new_with_version
           sample_encode_tuple_header sample_encode_atom sample_encode_ulong
           2 "ok" 42 (mkBuff [] 0)
           (mkBuff [131; 104; 2; 119; 2; 111; 107; 97; 42] 9)
           (mkSink [] [Accept 1; Accept 1; Accept 4]));
    evaluated.
Defined.

(** ** More on the reader *)

Lemma round_trip_when_frame_fits_witness :
  exists b0 b1 rs,
    write_cmd (mkBuff [1; 2; 3; 4; 5] (Z.of_nat (length [1; 2; 3; 4; 5])))
      (mkSink [] [Accept 1; Accept 3]) =
      Done (Z.of_nat (length [1; 2; 3; 4; 5]), mkSink (b0 :: b1 :: [1; 2; 3; 4; 5]) rs) /\
    frame_len true b0 b1 = Z.of_nat (length [1; 2; 3; 4; 5]) /\
    read_cmd true ReallocNull (mkReader 0 8 0) [Some [0; 0; 0; 0; 0; 0; 0; 0]]
      [Deliver (b0 :: b1 :: [1; 2; 3; 4; 5])] =
      Done (mkReturned 2 (mkReader 0 8 (Z.of_nat (length [1; 2; 3; 4; 5]) + 2))
              (<[0%nat := Some (b0 :: b1 :: [1; 2; 3; 4; 5]
                                  ++ drop (2 + length [1; 2; 3; 4; 5])
                                          [0; 0; 0; 0; 0; 0; 0; 0])]>
                 [Some [0; 0; 0; 0; 0; 0; 0; 0]])
              []).
Proof.
  apply (round_trip_when_frame_fits true ReallocNull [1; 2; 3; 4; 5]
           (mkSink [] [Accept 1; Accept 3]) 0%nat 8
           [Some [0; 0; 0; 0; 0; 0; 0; 0]] [0; 0; 0; 0; 0; 0; 0; 0]);
    evaluated.
Defined.

Lemma size_t_nonneg (z : Z) : 0 <= size_t_of_int z.
Proof. unfold size_t_of_int. apply Z.mod_pos_bound. lia. Qed.

Lemma store_bytes_offset (h h' : heap) (p : block) (off : Z) (d : Z) (data : list Z) :
  store_bytes h p off (d :: data) = Done h' ->
  exists bs, load_block h p = Some bs /\ 0 <= off /\
             off + Z.of_nat (length (d :: data)) <= Z.of_nat (length bs).
Proof.
  unfold store_bytes. destruct (load_block h p) as [bs | ]; [ | discriminate].
  destruct (Z.leb_spec 0 off); simpl andb; cbv iota; [ | discriminate].
  match goal with |- context [if ?c then _ else _] => destruct c eqn:E1 end;
    [ | discriminate].
  apply Z.leb_le in E1. intros _. now exists bs.
Qed.

(** X8.  Every call of [read_cmd] that returns gives [-1], [0], [1] or [2];
    and it gives [1] only for a header read that took one byte of the two:
    the cursor was [0] and is [1], the pointer and the capacity are
    untouched. *)
Theorem read_cmd_values (signed_char : bool) (a : realloc_reply) (r : reader)
    (h : heap) (inp : instream) (res : returned) :
  read_cmd signed_char a r h inp = Done res ->
  (ret res = -1 \/ ret res = 0 \/ ret res = 1 \/ ret res = 2) /\
  (ret res = 1 ->
   curpos r = 0 /\ curpos (rd res) = 1 /\
   pbuf (rd res) = pbuf r /\ size (rd res) = size r).
Proof.
  unfold read_cmd. intros H.
  destruct (Z.ltb_spec (curpos r) 2) as [Hlt | Hge].
  - unfold read_into in H.
    pose proof (sys_read_count inp (size_t_of_int (int_wrap (2 - curpos r)))
                  (size_t_nonneg _)) as Hc.
    destruct (sys_read inp (size_t_of_int (int_wrap (2 - curpos r))))
      as [[count data] inp1] eqn:Eread.
    destruct Hc as [Hcount Hdata].
    destruct (store_bytes h (pbuf r) (curpos r) data) as [h1 | | ] eqn:Estore;
      try discriminate.
    destruct (Z.leb_spec count 0) as [Hle | Hpos].
    + injection H as <-. simpl. split; [lia | lia].
    + destruct data as [ | d data]; [simpl in Hdata; lia | ].
      apply store_bytes_offset in Estore as (bs & _ & Hoff & _).
      rewrite int_wrap_small in Hcount by (unfold int_range; lia).
      rewrite size_t_small in Hcount by lia.
      cbn [curpos set_curpos] in H.
      rewrite int_wrap_small in H by (unfold int_range; lia).
      destruct (Z.ltb_spec (curpos r + count) 2) as [Hone | Htwo].
      * injection H as <-. simpl. split; [lia | ]. intros _. repeat split; lia.
      * apply body_phase_value in H. split; lia.
  - apply body_phase_value in H. split; lia.
Qed.

Lemma read_cmd_values_witness :
  (ret (mkReturned 1 (mkReader 0 8 1) [Some [0; 9; 9; 9; 9; 9; 9; 9]] []) = -1 \/
   ret (mkReturned 1 (mkReader 0 8 1) [Some [0; 9; 9; 9; 9; 9; 9; 9]] []) = 0 \/
   ret (mkReturned 1 (mkReader 0 8 1) [Some [0; 9; 9; 9; 9; 9; 9; 9]] []) = 1 \/
   ret (mkReturned 1 (mkReader 0 8 1) [Some [0; 9; 9; 9; 9; 9; 9; 9]] []) = 2) /\
  (ret (mkReturned 1 (mkReader 0 8 1) [Some [0; 9; 9; 9; 9; 9; 9; 9]] []) = 1 ->
   curpos (mkReader 0 8 0) = 0 /\
   curpos (rd (mkReturned 1 (mkReader 0 8 1) [Some [0; 9; 9; 9; 9; 9; 9; 9]] [])) = 1 /\
   pbuf (rd (mkReturned 1 (mkReader 0 8 1) [Some [0; 9; 9; 9; 9; 9; 9; 9]] [])) =
     pbuf (mkReader 0 8 0) /\
   size (rd (mkReturned 1 (mkReader 0 8 1) [Some [0; 9; 9; 9; 9; 9; 9; 9]] [])) =
     size (mkReader 0 8 0)).
Proof.
  apply (read_cmd_values true ReallocNull (mkReader 0 8 0)
           [Some [9; 9; 9; 9; 9; 9; 9; 9]] [Deliver [0]]).
  reflexivity.
Defined.

Lemma sys_read_nothing (inp : instream) : sys_read inp 0 = (0, [], inp).
Proof. now destruct inp. Qed.

(** X9.  A call made with the cursor at the end of the frame ([L + 2]: the
    frame is complete and the caller has not moved the cursor back, or the
    frame has an empty body) asks [read] for no bytes and returns [0], the
    value of a failed body read; it consumes nothing of the stream, whatever
    the stream holds, and changes nothing. *)
Theorem read_cmd_at_end_of_frame_returns_0 (signed_char : bool) (a : realloc_reply)
    (r : reader) (h : heap) (inp : instream) (b0 b1 : Z) :
  header_bytes h (pbuf r) = Done (b0, b1) ->
  curpos r = frame_len signed_char b0 b1 + 2 ->
  frame_len signed_char b0 b1 <= size r ->
  read_cmd signed_char a r h inp = Done (mkReturned 0 r h inp).
Proof.
  intros Hh Hcur Hsize.
  pose proof (frame_len_range signed_char b0 b1) as HL.
  rewrite read_cmd_in_body by lia.
  rewrite (body_phase_no_growth signed_char a r h inp b0 b1) by assumption.
  rewrite remaining_small by (unfold int_range; lia).
  unfold read_body, read_into.
  replace (frame_len signed_char b0 b1 - curpos r + 2) with 0 by lia.
  change (size_t_of_int 0) with 0. rewrite sys_read_nothing, store_nothing.
  reflexivity.
Qed.

Lemma read_cmd_at_end_of_frame_returns_0_witness :
  read_cmd true ReallocNull (mkReader 0 8 2) [Some [0; 0; 7; 7; 7; 7; 7; 7]]
    [Deliver [0; 3; 1; 2; 3]] =
  Done (mkReturned 0 (mkReader 0 8 2) [Some [0; 0; 7; 7; 7; 7; 7; 7]]
          [Deliver [0; 3; 1; 2; 3]]).
Proof.
  apply (read_cmd_at_end_of_frame_returns_0 true ReallocNull (mkReader 0 8 2)
           [Some [0; 0; 7; 7; 7; 7; 7; 7]] [Deliver [0; 3; 1; 2; 3]] 0 0);
    evaluated.
Defined.

(** ** A buffer that holds any frame *)

Lemma length_splice (bs data : list Z) (off : nat) :
  (off + length data <= length bs)%nat -> length (splice bs off data) = length bs.
Proof.
  intros H. unfold splice. rewrite !length_app, length_take, length_drop. lia.
Qed.

Lemma lookup_splice_below (bs data : list Z) (off i : nat) :
  (i < off)%nat -> (off <= length bs)%nat -> splice bs off data !! i = bs !! i.
Proof.
  intros Hi Hoff. unfold splice.
  rewrite lookup_app_l by (rewrite length_take; lia).
  now apply lookup_take_lt.
Qed.

(** The body phase in a block of 65537 bytes with a capacity of 65535: no
    growth, no access outside the block, and a cursor that stays within the
    frame. *)
Lemma body_phase_in_full_size_buffer (signed_char : bool) (r : reader) (h : heap)
    (inp : instream) (bs : list Z) (b0 b1 : Z) :
  load_block h (pbuf r) = Some bs ->
  65537 <= Z.of_nat (length bs) -> 65535 <= size r ->
  bs !! 0%nat = Some b0 -> bs !! 1%nat = Some b1 ->
  2 <= curpos r <= frame_len signed_char b0 b1 + 2 ->
  exists res bs',
    (forall a, body_phase signed_char a r h inp = Done res) /\
    pbuf (rd res) = pbuf r /\ size (rd res) = size r /\
    load_block (mem res) (pbuf r) = Some bs' /\
    length bs' = length bs /\
    bs' !! 0%nat = Some b0 /\ bs' !! 1%nat = Some b1 /\
    curpos r <= curpos (rd res) <= frame_len signed_char b0 b1 + 2.
Proof.
  intros Hload Hlen Hsize H0 H1 Hcur.
  pose proof (frame_len_range signed_char b0 b1) as HL.
  set (n := frame_len signed_char b0 b1 - curpos r + 2).
  pose proof (sys_read_count inp n ltac:(unfold n; lia)) as Hc.
  destruct (sys_read inp n) as [[count data] inp'] eqn:Eread.
  destruct Hc as [Hcount Hdata].
  assert (Hstore : store_bytes h (pbuf r) (curpos r) data =
                   Done (<[pbuf r := Some (splice bs (Z.to_nat (curpos r)) data)]> h))
    by (apply store_bytes_fits; trivial; unfold n in *; lia).
  assert (Hrun : forall a, body_phase signed_char a r h inp =
            if count <=? 0
            then Done (mkReturned 0 r
                         (<[pbuf r := Some (splice bs (Z.to_nat (curpos r)) data)]> h) inp')
            else Done (mkReturned 2 (set_curpos r (curpos r + count))
                         (<[pbuf r := Some (splice bs (Z.to_nat (curpos r)) data)]> h) inp')).
  { intros a.
    rewrite (body_phase_no_growth signed_char a r h inp b0 b1);
      [ | now apply header_bytes_of_block with (bs := bs) | lia].
    rewrite remaining_small by (unfold int_range; lia).
    unfold read_body, read_into. fold n.
    rewrite size_t_small by (unfold n; lia). rewrite Eread, Hstore.
    destruct (Z.leb_spec count 0); [reflexivity | ].
    rewrite int_wrap_small by (unfold int_range, n in *; lia). reflexivity. }
  assert (Hblock : load_block (<[pbuf r := Some (splice bs (Z.to_nat (curpos r)) data)]> h)
                     (pbuf r) = Some (splice bs (Z.to_nat (curpos r)) data))
    by (now apply load_block_insert with (old := bs)).
  assert (Hfacts : length (splice bs (Z.to_nat (curpos r)) data) = length bs /\
                   splice bs (Z.to_nat (curpos r)) data !! 0%nat = Some b0 /\
                   splice bs (Z.to_nat (curpos r)) data !! 1%nat = Some b1).
  { split; [apply length_splice; unfold n in *; lia | ].
    rewrite !lookup_splice_below by lia. now split. }
  destruct Hfacts as (Hl' & H0' & H1').
  destruct (Z.leb_spec count 0) as [Hle | Hpos].
  - exists (mkReturned 0 r
              (<[pbuf r := Some (splice bs (Z.to_nat (curpos r)) data)]> h) inp'),
           (splice bs (Z.to_nat (curpos r)) data).
    split; [exact Hrun | ]. simpl.
    repeat split; trivial; lia.
  - exists (mkReturned 2 (set_curpos r (curpos r + count))
              (<[pbuf r := Some (splice bs (Z.to_nat (curpos r)) data)]> h) inp'),
           (splice bs (Z.to_nat (curpos r)) data).
    split; [exact Hrun | ]. simpl.
    repeat split; trivial; unfold n in *; lia.
Qed.

(** X10.  In a block of at least 65537 bytes with a capacity of at least
    65535 (room for the largest frame a header can announce), a call made
    with the cursor in the header or within the announced frame never
    accesses memory outside the block and never calls [realloc] (the
    allocator's answer is irrelevant); it returns, leaves the pointer, the
    capacity and the block length as they were, never moves the cursor
    backwards, and leaves the cursor in the header or within the frame
    again, so that the same holds for the next call. *)
Theorem read_cmd_is_safe_in_a_full_size_buffer (signed_char : bool) (r : reader)
    (h : heap) (inp : instream) (bs : list Z) :
  load_block h (pbuf r) = Some bs ->
  65537 <= Z.of_nat (length bs) -> 65535 <= size r ->
  in_frame signed_char bs (curpos r) ->
  exists res bs',
    (forall a, read_cmd signed_char a r h inp = Done res) /\
    pbuf (rd res) = pbuf r /\ size (rd res) = size r /\
    load_block (mem res) (pbuf r) = Some bs' /\
    length bs' = length bs /\
    in_frame signed_char bs' (curpos (rd res)) /\
    curpos r <= curpos (rd res).
Proof.
  intros Hload Hlen Hsize [Hnonneg Hframe].
  destruct (Z.ltb_spec (curpos r) 2) as [Hlt | Hge].
  - (* header phase *)
    set (n := 2 - curpos r).
    pose proof (sys_read_count inp n ltac:(unfold n; lia)) as Hc.
    destruct (sys_read inp n) as [[count data] inp1] eqn:Eread.
    destruct Hc as [Hcount Hdata].
    set (bs1 := splice bs (Z.to_nat (curpos r)) data).
    assert (Hstore : store_bytes h (pbuf r) (curpos r) data =
                     Done (<[pbuf r := Some bs1]> h))
      by (apply store_bytes_fits; trivial; unfold n in *; lia).
    assert (Hblock : load_block (<[pbuf r := Some bs1]> h) (pbuf r) = Some bs1)
      by (now apply load_block_insert with (old := bs)).
    assert (Hl1 : length bs1 = length bs)
      by (apply length_splice; unfold n in *; lia).
    assert (Hhead : forall a, read_cmd signed_char a r h inp =
              if count <=? 0 then Done (mkReturned count r (<[pbuf r := Some bs1]> h) inp1)
              else if curpos r + count <? 2
                   then Done (mkReturned 1 (set_curpos r (curpos r + count))
                                (<[pbuf r := Some bs1]> h) inp1)
                   else body_phase signed_char a (set_curpos r (curpos r + count))
                          (<[pbuf r := Some bs1]> h) inp1).
    { intros a. unfold read_cmd, read_into.
      destruct (Z.ltb_spec (curpos r) 2); [ | lia].
      rewrite int_wrap_small by (unfold int_range; lia). fold n.
      rewrite size_t_small by (unfold n; lia). rewrite Eread, Hstore.
      destruct (Z.leb_spec count 0); [reflexivity | ].
      cbn [curpos set_curpos].
      rewrite int_wrap_small by (unfold int_range, n in *; lia). reflexivity. }
    destruct (Z.leb_spec count 0) as [Hle | Hpos].
    + exists (mkReturned count r (<[pbuf r := Some bs1]> h) inp1), bs1.
      split; [exact Hhead | ]. simpl.
      repeat split; trivial; lia.
    + destruct (Z.ltb_spec (curpos r + count) 2) as [Hone | Htwo].
      * exists (mkReturned 1 (set_curpos r (curpos r + count))
                  (<[pbuf r := Some bs1]> h) inp1), bs1.
        split; [exact Hhead | ]. simpl.
        repeat split; trivial; lia.
      * destruct (lookup_lt_is_Some_2 bs1 0%nat ltac:(lia)) as [b0 H0].
        destruct (lookup_lt_is_Some_2 bs1 1%nat ltac:(lia)) as [b1 H1].
        pose proof (frame_len_range signed_char b0 b1) as HL.
        destruct (body_phase_in_full_size_buffer signed_char
                    (set_curpos r (curpos r + count)) (<[pbuf r := Some bs1]> h)
                    inp1 bs1 b0 b1)
          as (res & bs' & Hbody & Hp & Hs & Hload' & Hl' & H0' & H1' & Hcur');
          trivial; simpl; try lia.
        simpl in *. exists res, bs'.
        split; [intros a; rewrite Hhead; apply Hbody | ].
        repeat split; trivial; try lia.
        intros _. exists b0, b1. repeat split; trivial; lia.
  - (* body phase *)
    destruct (Hframe Hge) as (b0 & b1 & H0 & H1 & Hcur).
    destruct (body_phase_in_full_size_buffer signed_char r h inp bs b0 b1)
      as (res & bs' & Hbody & Hp & Hs & Hload' & Hl' & H0' & H1' & Hcur');
      trivial; try lia.
    exists res, bs'.
    split; [intros a; rewrite read_cmd_in_body by assumption; apply Hbody | ].
    repeat split; trivial; try lia.
    intros _. exists b0, b1. repeat split; trivial; lia.
Qed.

Lemma read_cmd_is_safe_in_a_full_size_buffer_witness :
  exists res bs',
    (forall a,
       read_cmd true a (mkReader 0 65535 1) [Some (replicate (Z.to_nat 65537) 0)]
         [Deliver [3; 1; 2]] = Done res) /\
    pbuf (rd res) = pbuf (mkReader 0 65535 1) /\
    size (rd res) = size (mkReader 0 65535 1) /\
    load_block (mem res) (pbuf (mkReader 0 65535 1)) = Some bs' /\
    length bs' = length (replicate (Z.to_nat 65537) 0) /\
    in_frame true bs' (curpos (rd res)) /\
    curpos (mkReader 0 65535 1) <= curpos (rd res).
Proof.
  apply (read_cmd_is_safe_in_a_full_size_buffer true (mkReader 0 65535 1)
           [Some (replicate (Z.to_nat 65537) 0)] [Deliver [3; 1; 2]]
           (replicate (Z.to_nat 65537) 0)).
  - reflexivity.
  - rewrite length_replicate. lia.
  - simpl. lia.
  - split; [simpl; lia | intros H; simpl in H; lia].
Defined.

(** ** A frame that arrives in pieces *)

Lemma pending_bytes_pending (left : list Z) (rest : instream) (more : list Z) :
  pending_bytes rest = Some more ->
  pending_bytes (pending left rest) = Some (left ++ more).
Proof. intros H. destruct left; simpl; now rewrite H. Qed.

(** On a stream without failures that still holds bytes, a [read] of [n > 0]
    bytes takes a non-empty prefix of them, of at most [n] bytes. *)
Lemma sys_read_prefix (inp : instream) (n : Z) (bytes : list Z) :
  pending_bytes inp = Some bytes -> bytes <> [] -> 0 < n ->
  exists k inp',
    (1 <= k)%nat /\ Z.of_nat k <= n /\ (k <= length bytes)%nat /\
    sys_read inp n = (Z.of_nat k, take k bytes, inp') /\
    pending_bytes inp' = Some (drop k bytes).
Proof.
  intros Hp Hne Hn. revert bytes Hp Hne.
  induction inp as [ | ev rest IH]; intros bytes Hp Hne.
  - injection Hp as <-. congruence.
  - destruct ev as [c | ]; [ | discriminate].
    simpl in Hp.
    destruct (pending_bytes rest) as [more | ] eqn:Erest; [ | discriminate].
    injection Hp as <-.
    cbn [sys_read]. destruct (Z.eqb_spec n 0); [lia | ].
    destruct c as [ | b c].
    + now apply IH.
    + set (k := Z.to_nat (Z.min n (Z.of_nat (length (b :: c))))).
      assert (Hk : (1 <= k <= length (b :: c))%nat) by (unfold k; simpl length; lia).
      exists k, (pending (drop k (b :: c)) rest).
      split; [lia | split; [unfold k; lia | split; [rewrite length_app; lia | split]]].
      * now rewrite take_app_le by lia.
      * rewrite drop_app_le by lia. now apply pending_bytes_pending.
Qed.

Lemma splice_assembled (frame bs : list Z) (c k : nat) :
  (c + k <= length frame)%nat -> (c <= length bs)%nat ->
  splice (assembled frame bs c) c (take k (drop c frame)) = assembled frame bs (c + k).
Proof.
  intros Hf Hb. unfold splice, assembled.
  assert (Hlen : length (take c frame) = c) by (rewrite length_take; lia).
  rewrite take_app_length' by (symmetry; exact Hlen).
  rewrite length_take, length_drop.
  replace (Nat.min k (length frame - c)) with k by lia.
  rewrite drop_app_ge by lia. rewrite Hlen.
  replace (c + k - c)%nat with k by lia.
  rewrite drop_drop, app_assoc, take_take_drop. reflexivity.
Qed.

Lemma length_assembled (frame bs : list Z) (c : nat) :
  (c <= length frame)%nat -> (c <= length bs)%nat ->
  length (assembled frame bs c) = length bs.
Proof.
  intros Hf Hb. unfold assembled. rewrite length_app, length_take, length_drop. lia.
Qed.

(** A header read that leaves the header incomplete. *)
Lemma read_cmd_header_partial (s : bool) (a : realloc_reply) (r : reader)
    (h : heap) (inp inp' : instream) (bs data : list Z) (count : Z) :
  load_block h (pbuf r) = Some bs ->
  0 <= curpos r ->
  2 <= Z.of_nat (length bs) ->
  sys_read inp (2 - curpos r) = (count, data, inp') ->
  0 < count -> curpos r + count < 2 ->
  read_cmd s a r h inp =
    Done (mkReturned 1 (set_curpos r (curpos r + count))
            (<[pbuf r := Some (splice bs (Z.to_nat (curpos r)) data)]> h) inp').
Proof.
  intros Hload Hcur Hlen Hread Hpos Hsum. unfold read_cmd.
  destruct (Z.ltb_spec (curpos r) 2); [ | lia].
  unfold read_into.
  rewrite int_wrap_small by (unfold int_range; lia).
  rewrite size_t_small by lia. rewrite Hread.
  pose proof (sys_read_count inp (2 - curpos r) ltac:(lia)) as Hc.
  rewrite Hread in Hc.
  rewrite (store_bytes_fits h (pbuf r) (curpos r) data bs) by (trivial; lia).
  destruct (Z.leb_spec count 0); [lia | ].
  cbn [curpos set_curpos].
  rewrite int_wrap_small by (unfold int_range; lia).
  destruct (Z.ltb_spec (curpos r + count) 2); [reflexivity | lia].
Qed.

(** One body read while the frame is incomplete: it takes the next bytes of
    the frame, at least one and never more than the frame still lacks. *)
Lemma body_phase_takes_next_bytes (s : bool) (a : realloc_reply) (p : block)
    (sz : Z) (h : heap) (bs body more : list Z) (b0 b1 : Z) (inp : instream)
    (c : nat) :
  load_block h p = Some bs ->
  frame_len s b0 b1 = Z.of_nat (length body) ->
  Z.of_nat (length body) + 2 <= Z.of_nat (length bs) ->
  Z.of_nat (length body) <= sz ->
  (2 <= c < length body + 2)%nat ->
  pending_bytes inp = Some (drop c (b0 :: b1 :: body) ++ more) ->
  exists k inp',
    (1 <= k)%nat /\ (c + k <= length body + 2)%nat /\
    body_phase s a (mkReader p sz (Z.of_nat c))
      (<[p := Some (assembled (b0 :: b1 :: body) bs c)]> h) inp =
      Done (mkReturned 2 (mkReader p sz (Z.of_nat (c + k)))
              (<[p := Some (assembled (b0 :: b1 :: body) bs (c + k))]> h) inp') /\
    pending_bytes inp' = Some (drop (c + k) (b0 :: b1 :: body) ++ more).
Proof.
  intros Hload HL Hfit Hsz Hc Hp.
  pose proof (frame_len_range s b0 b1) as Hrange.
  set (frame := b0 :: b1 :: body) in *.
  assert (Hframe : length frame = (length body + 2)%nat) by (unfold frame; simpl; lia).
  assert (Hleft : length (drop c frame) = (length body + 2 - c)%nat)
    by (rewrite length_drop; lia).
  destruct (sys_read_prefix inp (Z.of_nat (length body) - Z.of_nat c + 2)
              (drop c frame ++ more) Hp)
    as (k & inp' & Hk1 & Hkn & _ & Hread & Hp'); [ | lia | ].
  { intros E. apply (f_equal (@length Z)) in E.
    rewrite length_app, Hleft in E. simpl in E. lia. }
  rewrite take_app_le in Hread by lia.
  rewrite drop_app_le, drop_drop in Hp' by lia.
  set (blk := assembled frame bs c).
  assert (Hblk : load_block (<[p := Some blk]> h) p = Some blk)
    by (now apply load_block_insert with (old := bs)).
  assert (Hlen : length blk = length bs) by (apply length_assembled; lia).
  assert (Hhead : blk !! 0%nat = Some b0 /\ blk !! 1%nat = Some b1).
  { unfold blk, assembled, frame. destruct c as [ | [ | c']]; try lia. now split. }
  destruct Hhead as [H0 H1].
  exists k, inp'. split; [exact Hk1 | split; [lia | split; [ | exact Hp']]].
  rewrite (body_phase_no_growth s a _ (<[p := Some blk]> h) inp b0 b1);
    [ | now apply header_bytes_of_block with (bs := blk) | simpl; lia].
  rewrite HL. cbn [curpos].
  rewrite remaining_small by (unfold int_range; lia).
  rewrite (read_body_positive (mkReader p sz (Z.of_nat c)) (<[p := Some blk]> h)
             inp inp' blk (take k (drop c frame))
             (Z.of_nat (length body) - Z.of_nat c + 2) (Z.of_nat k));
    trivial; cbn [curpos pbuf]; try lia; [ | unfold int_range; lia].
  unfold set_curpos. cbn [curpos pbuf size].
  rewrite list_insert_insert_eq, Nat2Z.id.
  unfold blk. rewrite splice_assembled by lia.
  now rewrite Nat2Z.inj_add.
Qed.

(** From any point of the assembly on, further calls complete the frame. *)
Lemma frame_assembled_from (s : bool) (a : realloc_reply) (p : block) (sz : Z)
    (h : heap) (bs body more : list Z) (b0 b1 : Z) :
  load_block h p = Some bs ->
  frame_len s b0 b1 = Z.of_nat (length body) ->
  1 <= Z.of_nat (length body) ->
  Z.of_nat (length body) + 2 <= Z.of_nat (length bs) ->
  Z.of_nat (length body) <= sz ->
  forall (n c : nat) (inp : instream),
    (c + n = length body + 2)%nat ->
    pending_bytes inp = Some (drop c (b0 :: b1 :: body) ++ more) ->
    exists inp',
      read_calls s a (mkReader p sz (Z.of_nat c))
        (<[p := Some (assembled (b0 :: b1 :: body) bs c)]> h) inp
        (mkReader p sz (Z.of_nat (length body + 2)))
        (<[p := Some (assembled (b0 :: b1 :: body) bs (length body + 2))]> h) inp' /\
      pending_bytes inp' = Some more.
Proof.
  intros Hload HL Hbody Hfit Hsz n.
  set (frame := b0 :: b1 :: body).
  assert (Hframe : length frame = (length body + 2)%nat) by (unfold frame; simpl; lia).
  induction n as [n IH] using lt_wf_ind. intros c inp Hc Hp.
  destruct n as [ | n'].
  - (* the frame is complete *)
    replace c with (length body + 2)%nat in * by lia.
    exists inp. split; [apply calls_none | ].
    rewrite drop_ge in Hp by lia. exact Hp.
  - destruct (Nat.lt_ge_cases c 2) as [Hhead | Hin].
    + (* a header read *)
      assert (Hleft : length (drop c frame) = (length body + 2 - c)%nat)
        by (rewrite length_drop; lia).
      destruct (sys_read_prefix inp (2 - Z.of_nat c) (drop c frame ++ more) Hp)
        as (k & inp1 & Hk1 & Hkn & _ & Hread & Hp1); [ | lia | ].
      { intros E. apply (f_equal (@length Z)) in E.
        rewrite length_app, Hleft in E. simpl in E. lia. }
      rewrite take_app_le in Hread by lia.
      rewrite drop_app_le, drop_drop in Hp1 by lia.
      set (blk := assembled frame bs c).
      assert (Hblk : load_block (<[p := Some blk]> h) p = Some blk)
        by (now apply load_block_insert with (old := bs)).
      assert (Hlen : length blk = length bs) by (apply length_assembled; lia).
      assert (Hheap : <[p := Some (splice blk (Z.to_nat (Z.of_nat c)) (take k (drop c frame)))]>
                        (<[p := Some blk]> h) =
                      <[p := Some (assembled frame bs (c + k))]> h).
      { rewrite list_insert_insert_eq, Nat2Z.id. unfold blk.
        now rewrite splice_assembled by lia. }
      destruct (Nat.lt_ge_cases (c + k) 2) as [Hpart | Hfull].
      * (* the header is still incomplete: the call returns 1 *)
        destruct (IH n' ltac:(lia) (c + k)%nat inp1) as (inp' & Hrun & Hmore);
          [lia | exact Hp1 | ].
        exists inp'. split; [ | exact Hmore].
        apply (calls_again s a _ _ _
                 (mkReturned 1 (mkReader p sz (Z.of_nat (c + k)))
                    (<[p := Some (assembled frame bs (c + k))]> h) inp1));
          [ | simpl; lia | exact Hrun].
        rewrite (read_cmd_header_partial s a (mkReader p sz (Z.of_nat c))
                   (<[p := Some blk]> h) inp inp1 blk (take k (drop c frame))
                   (Z.of_nat k)); trivial; cbn [curpos pbuf]; try lia.
        rewrite Hheap. unfold set_curpos. cbn [curpos pbuf size].
        now rewrite <- Nat2Z.inj_add.
      * (* the header is complete: the same call reads body bytes *)
        assert (Hck : (c + k = 2)%nat) by lia.
        rewrite Hck in *.
        destruct (body_phase_takes_next_bytes s a p sz h bs body more b0 b1 inp1 2)
          as (k' & inp2 & Hk' & Hck' & Hbody2 & Hp2); trivial; try lia.
        destruct (IH (length body + 2 - (2 + k'))%nat ltac:(lia) (2 + k')%nat inp2)
          as (inp' & Hrun & Hmore); [lia | exact Hp2 | ].
        exists inp'. split; [ | exact Hmore].
        apply (calls_again s a _ _ _
                 (mkReturned 2 (mkReader p sz (Z.of_nat (2 + k')))
                    (<[p := Some (assembled frame bs (2 + k'))]> h) inp2));
          [ | simpl; lia | exact Hrun].
        rewrite (read_cmd_header_completed s a (mkReader p sz (Z.of_nat c))
                   (<[p := Some blk]> h) inp inp1 blk (take k (drop c frame))
                   (Z.of_nat k)); trivial; cbn [curpos pbuf]; try lia.
        rewrite Hheap. unfold set_curpos. cbn [curpos pbuf size].
        exact Hbody2.
    + (* a body read *)
      destruct (body_phase_takes_next_bytes s a p sz h bs body more b0 b1 inp c)
        as (k & inp1 & Hk & Hck & Hbody1 & Hp1); trivial; try lia.
      destruct (IH (length body + 2 - (c + k))%nat ltac:(lia) (c + k)%nat inp1)
        as (inp' & Hrun & Hmore); [lia | exact Hp1 | ].
      exists inp'. split; [ | exact Hmore].
      apply (calls_again s a _ _ _
               (mkReturned 2 (mkReader p sz (Z.of_nat (c + k)))
                  (<[p := Some (assembled frame bs (c + k))]> h) inp1));
        [ | simpl; lia | exact Hrun].
      rewrite read_cmd_in_body by (simpl; lia). exact Hbody1.
Qed.

(** X11.  Resumption.  However the bytes of a frame are cut into deliveries
    (down to one byte at a time, the header split or joined to the body),
    and whatever follows the frame on the stream, calls of [read_cmd]
    repeated with the same buffer, capacity and cursor, each returning [1]
    or [2], bring the cursor to [L + 2] with the header and the body in the
    buffer, in order, the bytes of the block beyond the frame untouched; and
    they have read exactly the frame: what follows it is still on the
    stream.  (For a body of at least one byte and a block that already holds
    [L + 2] bytes.) *)
Theorem frame_is_assembled_from_any_deliveries (signed_char : bool)
    (a : realloc_reply) (p : block) (sz : Z) (h : heap) (bs body more : list Z)
    (b0 b1 : Z) (inp : instream) :
  load_block h p = Some bs ->
  pending_bytes inp = Some (b0 :: b1 :: body ++ more) ->
  frame_len signed_char b0 b1 = Z.of_nat (length body) ->
  1 <= Z.of_nat (length body) ->
  Z.of_nat (length body) + 2 <= Z.of_nat (length bs) ->
  Z.of_nat (length body) <= sz ->
  exists inp',
    read_calls signed_char a (mkReader p sz 0) h inp
      (mkReader p sz (Z.of_nat (length body) + 2))
      (<[p := Some (b0 :: b1 :: body ++ drop (2 + length body) bs)]> h) inp' /\
    pending_bytes inp' = Some more.
Proof.
  intros Hload Hp HL Hbody Hfit Hsz.
  destruct (frame_assembled_from signed_char a p sz h bs body more b0 b1
              Hload HL Hbody Hfit Hsz (length body + 2) 0 inp)
    as (inp' & Hrun & Hmore); [lia | exact Hp | ].
  exists inp'. split; [ | exact Hmore].
  change (assembled (b0 :: b1 :: body) bs 0) with bs in Hrun.
  rewrite (list_insert_id h p (Some bs)) in Hrun
    by (now apply load_block_live in Hload).
  replace (length body + 2)%nat with (2 + length body)%nat in Hrun by lia.
  unfold assembled in Hrun. rewrite take_ge in Hrun by (simpl; lia).
  replace (Z.of_nat (2 + length body)) with (Z.of_nat (length body) + 2) in Hrun by lia.
  exact Hrun.
Qed.

Lemma frame_is_assembled_from_any_deliveries_witness :
  exists inp',
    read_calls true ReallocNull (mkReader 0 8 0) [Some [9; 9; 9; 9; 9; 9; 9; 9]]
      [Deliver [0]; Deliver [3; 1]; Deliver [2]; Deliver [3; 0; 7]]
      (mkReader 0 8 (Z.of_nat (length [1; 2; 3]) + 2))
      (<[0%nat := Some (0 :: 3 :: [1; 2; 3]
                          ++ drop (2 + length [1; 2; 3]) [9; 9; 9; 9; 9; 9; 9; 9])]>
         [Some [9; 9; 9; 9; 9; 9; 9; 9]]) inp' /\
    pending_bytes inp' = Some [0; 7].
Proof.
  apply (frame_is_assembled_from_any_deliveries true ReallocNull 0%nat 8
           [Some [9; 9; 9; 9; 9; 9; 9; 9]] [9; 9; 9; 9; 9; 9; 9; 9] [1; 2; 3]
           [0; 7] 0 3 [Deliver [0]; Deliver [3; 1]; Deliver [2]; Deliver [3; 0; 7]]);
    evaluated.
Defined.

(** ** [write_cmd] on any sink *)




(** ** Growth with a block that moves *)

(** X14.  Whenever the frame length exceeds a capacity that is not negative
    and [realloc] answers with a new address, [realloc] has freed the old
    address, [*pbuf] still holds it, and the [memset] that follows, of
    [len - size >= 1] zero bytes at [*pbuf], is a store through that freed
    pointer (a use after free): it is the access at which the run of the
    call in this model ends. *)
Theorem growth_with_a_moved_block_writes_through_the_freed_pointer
    (signed_char : bool) (junk : nat -> Z) (r : reader) (h : heap)
    (inp : instream) (b0 b1 : Z) :
  header_bytes h (pbuf r) = Done (b0, b1) ->
  0 <= size r < frame_len signed_char b0 b1 ->
  exists newbuf h1,
    realloc h (pbuf r) (size_t_of_int (frame_len signed_char b0 b1))
      (ReallocMoved junk) = Done (Some newbuf, h1) /\
    newbuf <> pbuf r /\
    h1 !! pbuf r = Some None /\
    1 <= size_t_of_int (int_wrap (frame_len signed_char b0 b1 - size r)) /\
    memset_zero h1 (pbuf r)
      (size_t_of_int (int_wrap (frame_len signed_char b0 b1 - size r))) =
      Crash BadPointer /\
    body_phase signed_char (ReallocMoved junk) r h inp = Crash BadPointer.
Proof.
  intros Hh Hsize.
  pose proof (frame_len_range signed_char b0 b1) as HL.
  set (L := frame_len signed_char b0 b1) in *.
  pose proof Hh as Hhead. unfold header_bytes in Hhead.
  destruct (load_block h (pbuf r)) as [old | ] eqn:Hload; [ | discriminate].
  pose proof Hload as Hlive. apply load_block_live in Hlive as [_ Hlt].
  set (h1 := <[pbuf r := None]> h ++ [Some (resized old (Z.to_nat (size_t_of_int L)) junk)]).
  assert (Hrealloc : realloc h (pbuf r) (size_t_of_int L) (ReallocMoved junk) =
                     Done (Some (length h), h1))
    by (unfold realloc; now rewrite Hload).
  assert (Hfreed : h1 !! pbuf r = Some None).
  { unfold h1. rewrite lookup_app_l by (rewrite length_insert; exact Hlt).
    now apply list_lookup_insert_eq. }
  assert (Hn : size_t_of_int (int_wrap (L - size r)) = L - size r).
  { rewrite int_wrap_small by (unfold int_range; lia). apply size_t_small. lia. }
  assert (Hmemset : memset_zero h1 (pbuf r) (size_t_of_int (int_wrap (L - size r))) =
                    Crash BadPointer).
  { unfold memset_zero. rewrite Hn.
    destruct (Z.to_nat (L - size r)) as [ | m] eqn:Em; [lia | ].
    cbn [replicate]. unfold store_bytes, load_block. now rewrite Hfreed. }
  exists (length h), h1.
  split; [exact Hrealloc | split; [lia | split; [exact Hfreed | split; [lia | ]]]].
  split; [exact Hmemset | ].
  unfold body_phase. rewrite Hh. fold L.
  destruct (Z.ltb_spec (size r) L); [ | lia].
  now rewrite Hrealloc, Hmemset.
Qed.

Lemma growth_with_a_moved_block_writes_through_the_freed_pointer_witness :
  exists newbuf h1,
    realloc [Some [1; 0]] (pbuf (mkReader 0 2 2)) (size_t_of_int (frame_len true 1 0))
      (ReallocMoved (fun _ => 0)) = Done (Some newbuf, h1) /\
    newbuf <> pbuf (mkReader 0 2 2) /\
    h1 !! pbuf (mkReader 0 2 2) = Some None /\
    1 <= size_t_of_int (int_wrap (frame_len true 1 0 - size (mkReader 0 2 2))) /\
    memset_zero h1 (pbuf (mkReader 0 2 2))
      (size_t_of_int (int_wrap (frame_len true 1 0 - size (mkReader 0 2 2)))) =
      Crash BadPointer /\
    body_phase true (ReallocMoved (fun _ => 0)) (mkReader 0 2 2) [Some [1; 0]] [] =
      Crash BadPointer.
Proof.
  apply (growth_with_a_moved_block_writes_through_the_freed_pointer true
           (fun _ => 0) (mkReader 0 2 2) [Some [1; 0]] [] 1 0);
    evaluated.
Defined.

(** ** Growth in place *)

Lemma length_resized (old : list Z) (n : nat) (junk : nat -> Z) :
  length (resized old n junk) = n.
Proof.
  unfold resized. rewrite length_app, length_take, length_map, length_seq. lia.
Qed.

(** X15.  Whenever the frame length [len] exceeds the capacity and [realloc]
    grows the block where it is, the block has [len] bytes, while the frame
    takes [len + 2]: a body read that brings the cursor beyond [len] (the
    read that completes the frame does) stores past the end of the block. *)
Theorem body_read_after_growth_overruns_the_block (signed_char : bool)
    (junk : nat -> Z) (r : reader) (h : heap) (inp inp' : instream)
    (data : list Z) (b0 b1 count : Z) :
  header_bytes h (pbuf r) = Done (b0, b1) ->
  0 <= size r < frame_len signed_char b0 b1 ->
  2 <= curpos r <= frame_len signed_char b0 b1 + 2 ->
  sys_read inp (frame_len signed_char b0 b1 - curpos r + 2) = (count, data, inp') ->
  0 < count ->
  frame_len signed_char b0 b1 < curpos r + count ->
  body_phase signed_char (ReallocInPlace junk) r h inp = Crash OutOfBounds /\
  read_cmd signed_char (ReallocInPlace junk) r h inp = Crash OutOfBounds.
Proof.
  intros Hh Hsize Hcur Hread Hpos Hover.
  pose proof (frame_len_range signed_char b0 b1) as HL.
  set (L := frame_len signed_char b0 b1) in *.
  assert (Hbody : body_phase signed_char (ReallocInPlace junk) r h inp = Crash OutOfBounds).
  { unfold body_phase. rewrite Hh. fold L.
    destruct (Z.ltb_spec (size r) L); [ | lia].
    unfold realloc. unfold header_bytes in Hh.
    destruct (load_block h (pbuf r)) as [old | ] eqn:Hload; [ | discriminate].
    rewrite int_wrap_small by (unfold int_range; lia).
    rewrite !size_t_small by lia.
    set (grown := resized old (Z.to_nat L) junk).
    assert (Hgrown : load_block (<[pbuf r := Some grown]> h) (pbuf r) = Some grown)
      by (now apply load_block_insert with (old := old)).
    assert (Hlg : length grown = Z.to_nat L) by apply length_resized.
    unfold memset_zero.
    rewrite (store_bytes_fits _ (pbuf r) 0 _ grown Hgrown)
      by (rewrite ?length_replicate; lia).
    rewrite list_insert_insert_eq.
    set (cleared := splice grown (Z.to_nat 0) (replicate (Z.to_nat (L - size r)) 0)).
    assert (Hlc : length cleared = Z.to_nat L).
    { unfold cleared. rewrite length_splice; [exact Hlg | ].
      rewrite length_replicate. simpl. lia. }
    assert (Hcleared : load_block (<[pbuf r := Some cleared]> h) (pbuf r) = Some cleared)
      by (now apply load_block_insert with (old := old)).
    rewrite remaining_small by (unfold int_range; lia).
    unfold read_body, read_into. cbn [pbuf curpos].
    rewrite size_t_small by lia. rewrite Hread.
    pose proof (sys_read_count inp (L - curpos r + 2) ltac:(lia)) as Hc.
    rewrite Hread in Hc. destruct Hc as [_ Hdata].
    destruct data as [ | d data]; [simpl in Hdata; lia | ].
    unfold store_bytes. rewrite Hcleared.
    destruct (Z.leb_spec 0 (curpos r)); [ | lia]. simpl andb.
    match goal with |- context [if ?c then _ else _] => destruct c eqn:E end;
      [ | reflexivity].
    exfalso. apply Z.leb_le in E. simpl length in *. lia. }
  split; [exact Hbody | ].
  now rewrite read_cmd_in_body by lia.
Qed.

Lemma body_read_after_growth_overruns_the_block_witness :
  body_phase true (ReallocInPlace (fun _ => 0)) (mkReader 0 4 2) [Some [0; 5; 0; 0]]
    [Deliver [1; 2; 3; 4; 5]] = Crash OutOfBounds /\
  read_cmd true (ReallocInPlace (fun _ => 0)) (mkReader 0 4 2) [Some [0; 5; 0; 0]]
    [Deliver [1; 2; 3; 4; 5]] = Crash OutOfBounds.
Proof.
  apply (body_read_after_growth_overruns_the_block true (fun _ => 0)
           (mkReader 0 4 2) [Some [0; 5; 0; 0]] [Deliver [1; 2; 3; 4; 5]] []
           [1; 2; 3; 4; 5] 0 5 5);
    evaluated.
Defined.
